(** * The single-file ReAct agent (agent.ts): control loop, parsers and tools

    A shallow embedding of [src/single_file_agent/agent.ts].  JavaScript
    strings are sequences of UTF-16 code units; the three regular expressions
    of the program are values of a small pattern type, run by a backtracking
    matcher that follows the greedy, leftmost semantics of [RegExp]; the
    numbers of the Calculator are IEEE 754 binary64 values.  What lies outside
    the file (the network call, [Function], [toLowerCase] on arbitrary
    Unicode text) is an interface, [Env], that every general theorem
    quantifies over.

    The workflow is the graph the file declares: the three nodes, the two
    plain edges and the conditional edge, entered at [parse_input]; a node
    returns the whole next state.  Limits the graph library may add of its
    own (a bound on the number of node executions) are not part of the file
    and not modelled.  As a turn that sets an empty answer neither ends the
    run nor counts a step, a run need not end: execution takes fuel. *)

From Stdlib Require Import List ZArith NArith Bool Lia String Ascii.
From Stdlib Require Import SpecFloat.
From Stdlib Require QArith Qround Qabs.
Import ListNotations.

Set Implicit Arguments.

(* ===================================================================== *)
(** * JavaScript strings *)
(* ===================================================================== *)

Module JS.

Local Open Scope N_scope.

(** A string value is a finite sequence of 16-bit code units. *)
Definition code_unit := N.
Definition jsstring := list code_unit.

(** An ASCII literal of the source text, as code units. *)
Definition str (s : string) : jsstring :=
  List.map N_of_ascii (list_ascii_of_string s).

(** The double quote, code unit 0x22. *)
Definition dquote : code_unit := 34.

Fixpoint eqb (a b : jsstring) : bool :=
  match a, b with
  | [], [] => true
  | x :: a', y :: b' => N.eqb x y && eqb a' b'
  | _, _ => false
  end.

(** LineTerminator: LF, CR, LS, PS. *)
Definition is_line_terminator (c : code_unit) : bool :=
  (c =? 10) || (c =? 13) || (c =? 8232) || (c =? 8233).

(** WhiteSpace or LineTerminator: what [\s] matches and what [trim] strips.
    TAB, LF, VT, FF, CR, SP, NBSP, U+1680, U+2000..U+200A, LS, PS, U+202F,
    U+205F, U+3000 and the byte order mark U+FEFF. *)
Definition is_space (c : code_unit) : bool :=
  ((9 <=? c) && (c <=? 13)) || (c =? 32) || (c =? 160) || (c =? 5760)
  || ((8192 <=? c) && (c <=? 8202)) || (c =? 8232) || (c =? 8233)
  || (c =? 8239) || (c =? 8287) || (c =? 12288) || (c =? 65279).

Definition is_digit (c : code_unit) : bool := (48 <=? c) && (c <=? 57).

Fixpoint dropWhile (p : code_unit -> bool) (s : jsstring) : jsstring :=
  match s with
  | c :: s' => if p c then dropWhile p s' else s
  | [] => []
  end.

(** [String.prototype.trim]. *)
Definition trimStart (s : jsstring) : jsstring := dropWhile is_space s.
Definition trimEnd (s : jsstring) : jsstring := rev (dropWhile is_space (rev s)).
Definition trim (s : jsstring) : jsstring := trimEnd (trimStart s).

(** [toLowerCase] on Basic Latin: A..Z to a..z, every other unit kept. *)
Definition ascii_lower_unit (c : code_unit) : code_unit :=
  if (65 <=? c) && (c <=? 90) then c + 32 else c.
Definition ascii_toLowerCase (s : jsstring) : jsstring := List.map ascii_lower_unit s.

(** [prefix ++ rest = s]: the rest of [s] after the literal [prefix]. *)
Fixpoint strip_prefix (prefix s : jsstring) : option jsstring :=
  match prefix, s with
  | [], _ => Some s
  | p :: prefix', c :: s' => if p =? c then strip_prefix prefix' s' else None
  | _ :: _, [] => None
  end.

(** [Array.prototype.join] over strings. *)
Fixpoint join (sep : jsstring) (l : list jsstring) : jsstring :=
  match l with
  | [] => []
  | [x] => x
  | x :: l' => x ++ sep ++ join sep l'
  end.

(** Decimal digits of a natural number, most significant first. *)
Fixpoint decimal_fuel (fuel : nat) (n : N) (acc : jsstring) : jsstring :=
  match fuel with
  | O => acc
  | S fuel' =>
      let acc' := (48 + n mod 10) :: acc in
      if n <? 10 then acc' else decimal_fuel fuel' (n / 10) acc'
  end.
Definition decimal (n : N) : jsstring := decimal_fuel (S (N.to_nat (N.log2 n))) n [].

(** ** Completion records

    A call either returns a value or throws; of the thrown value the program
    only ever reads [.message]. *)
Inductive Completion (A : Type) : Type :=
| Normal (value : A)
| Throw (message : jsstring).
Arguments Normal {A} value.
Arguments Throw {A} message.

Definition bind {A B} (c : Completion A) (k : A -> Completion B) : Completion B :=
  match c with
  | Normal a => k a
  | Throw m => Throw m
  end.

(* ------------------------------------------------------------------- *)
(** ** Regular expressions

    The patterns of the program use literals, greedy repetition of a
    character class, capture groups (never nested), [^] and [$]; no flag is
    set, so [^] and [$] are the ends of the input and [.] excludes the line
    terminators.  Without the [u] flag a pattern character is a code unit. *)

Inductive regex : Type :=
| Lit (s : jsstring)                     (* the characters of s, in order *)
| Star (cls : code_unit -> bool)         (* [cls]* , greedy *)
| Plus (cls : code_unit -> bool)         (* [cls]+ , greedy *)
| Group (r : regex)                      (* ( r ) *)
| Cat (r1 r2 : regex)
| Bos                                    (* ^ *)
| Eos.                                   (* $ *)

Section Matcher.
Variable R : Type.

(** The state of a match attempt is the index reached and the input left
    from there; a continuation is the rest of the pattern. *)
Definition cont := nat -> jsstring -> list jsstring -> option R.

(** Greedy repetition: take one more character when possible and only give
    it back when the rest of the pattern fails. *)
Fixpoint greedy (cls : code_unit -> bool) (pos : nat) (s : jsstring)
         (k : nat -> jsstring -> option R) : option R :=
  match s with
  | c :: s' =>
      if cls c then
        match greedy cls (S pos) s' k with
        | Some r => Some r
        | None => k pos s
        end
      else k pos s
  | [] => k pos s
  end.

(** Groups are numbered by their opening parenthesis; as no group of the
    program is nested, that is the order in which they close. *)
Fixpoint rmatch (r : regex) (pos : nat) (s : jsstring) (caps : list jsstring)
         (k : cont) : option R :=
  match r with
  | Lit l =>
      match strip_prefix l s with
      | Some s' => k (pos + List.length l)%nat s' caps
      | None => None
      end
  | Star cls => greedy cls pos s (fun pos' s' => k pos' s' caps)
  | Plus cls =>
      match s with
      | c :: s' =>
          if cls c then greedy cls (S pos) s' (fun pos' s' => k pos' s' caps)
          else None
      | [] => None
      end
  | Group r' =>
      rmatch r' pos s caps
        (fun pos' s' caps' => k pos' s' (caps' ++ [firstn (pos' - pos) s]))
  | Cat r1 r2 =>
      rmatch r1 pos s caps (fun pos' s' caps' => rmatch r2 pos' s' caps' k)
  | Bos => if Nat.eqb pos 0 then k pos s caps else None
  | Eos => match s with [] => k pos s caps | _ :: _ => None end
  end.
End Matcher.

(** One attempt at index [pos]: the matched text followed by the groups. *)
Definition match_at (r : regex) (pos : nat) (s : jsstring) : option (list jsstring) :=
  rmatch r pos s [] (fun pos' _ caps => Some (firstn (pos' - pos) s :: caps)).

(** [RegExp.prototype.exec] without the [g] and [y] flags: the attempts start
    at index 0 and move right until one succeeds. *)
Fixpoint exec_from (r : regex) (pos : nat) (s : jsstring) : option (list jsstring) :=
  match match_at r pos s with
  | Some m => Some m
  | None =>
      match s with
      | [] => None
      | _ :: s' => exec_from r (S pos) s'
      end
  end.

(** [String.prototype.match] and [RegExp.prototype.test]. *)
Definition String_match (s : jsstring) (r : regex) : option (list jsstring) :=
  exec_from r 0 s.
Definition test (r : regex) (s : jsstring) : bool :=
  match exec_from r 0 s with Some _ => true | None => false end.

End JS.

Import JS.

(* ===================================================================== *)
(** * Numbers: binary64 arithmetic, literals and [Number::toString] *)
(* ===================================================================== *)

Module Number.

Import QArith_base.

(** A Number is a binary64 value; NaN carries no payload a program can see. *)
Definition number := spec_float.

Definition prec : Z := 53.
Definition emax : Z := 1024.

Definition add : number -> number -> number := SFadd prec emax.
Definition sub : number -> number -> number := SFsub prec emax.
Definition mul : number -> number -> number := SFmul prec emax.
Definition div : number -> number -> number := SFdiv prec emax.
Definition neg : number -> number := SFopp.

Definition Infinity : number := S754_infinity false.
Definition NaN : number := S754_nan.

(** The Number value of the rational [num / den], [den > 0]: round to
    nearest, ties to even. *)
Definition of_ratio (num den : Z) : number :=
  match num with
  | Z0 => S754_zero false
  | Zpos _ =>
      let '(mz, ez, lz) := SFdiv_core_binary prec emax num 0 den 0 in
      binary_round_aux prec emax false mz ez lz
  | Zneg _ =>
      let '(mz, ez, lz) := SFdiv_core_binary prec emax (Z.opp num) 0 den 0 in
      binary_round_aux prec emax true mz ez lz
  end.

Definition of_Z (n : Z) : number := of_ratio n 1.

(** ** [Number::toString] in radix 10 *)

Local Open Scope Q_scope.

Definition pow2 (e : Z) : Q := Qpower (2 # 1) e.
Definition pow10 (t : Z) : Q := Qpower (10 # 1) t.

(** The real value of the finite number with mantissa [m] and exponent [e]. *)
Definition value (m : positive) (e : Z) : Q := inject_Z (Zpos m) * pow2 e.

(** The reals that round to [m * 2^e]: halfway to each neighbour, the lower
    neighbour being twice as near at the bottom of a binade; the ends belong
    to the interval when the mantissa is even. *)
Definition lower (m : positive) (e : Z) : Q :=
  if (Pos.eqb m 4503599627370496 && Z.ltb (-1074) e)%bool
  then value m e - (1 # 4) * pow2 e
  else value m e - (1 # 2) * pow2 e.
Definition upper (m : positive) (e : Z) : Q := value m e + (1 # 2) * pow2 e.

Definition Qltb (a b : Q) : bool :=
  match Qcompare a b with Lt => true | _ => false end.
Definition Qleb (a b : Q) : bool :=
  match Qcompare a b with Gt => false | _ => true end.

Definition rounds_to (m : positive) (e : Z) (v : Q) : bool :=
  if Z.even (Zpos m)
  then Qleb (lower m e) v && Qleb v (upper m e)
  else Qltb (lower m e) v && Qltb v (upper m e).

(** The least [n] from [n0] on with [x < 10^n]. *)
Fixpoint magnitude (fuel : nat) (n0 : Z) (x : Q) : Z :=
  match fuel with
  | O => n0
  | S fuel' => if Qltb x (pow10 n0) then n0 else magnitude fuel' (n0 + 1) x
  end.

Definition Qdist (a b : Q) : Q := Qabs.Qabs (a - b).

(** The candidates [(s, n)] with [k] digits: for each decade [n] the two
    integers next to [x / 10^(n-k)], kept when they have [k] digits and read
    back as the number. *)
Definition candidates (m : positive) (e : Z) (n0 : Z) (k : Z) : list (Z * Z) :=
  let x := value m e in
  flat_map
    (fun n =>
       let f := Qround.Qfloor (x / pow10 (n - k)) in
       filter
         (fun sn : Z * Z =>
            let s := fst sn in
            (Z.leb (10 ^ (k - 1)) s && Z.ltb s (10 ^ k)
             && rounds_to m e (inject_Z s * pow10 (n - k)))%bool)
         [(f, n); ((f + 1)%Z, n)])
    [(n0 - 1)%Z; n0; (n0 + 1)%Z].

(** Of two candidates the one nearer to [x], the even [s] on a tie. *)
Definition nearer (x : Q) (k : Z) (a b : Z * Z) : Z * Z :=
  let da := Qdist (inject_Z (fst a) * pow10 (snd a - k)) x in
  let db := Qdist (inject_Z (fst b) * pow10 (snd b - k)) x in
  match Qcompare da db with
  | Lt => a
  | Gt => b
  | Eq => if Z.even (fst a) then a else b
  end.

Definition best (x : Q) (k : Z) (l : list (Z * Z)) : option (Z * Z) :=
  match l with
  | [] => None
  | a :: l' => Some (fold_left (nearer x k) l' a)
  end.

(** The least [k] with a candidate, then [(s, n, k)]; seventeen digits always
    tell one binary64 value from the next, so at [k = 17] the integer nearest
    to [x / 10^(n0-17)] is taken. *)
Fixpoint shortest (fuel : nat) (m : positive) (e : Z) (n0 : Z) (k : Z) : Z * Z * Z :=
  match fuel with
  | O =>
      let x := value m e in
      let f := Qround.Qfloor (x / pow10 (n0 - 17)) in
      let '(s, n) := nearer x 17 (f, n0) ((f + 1)%Z, n0) in
      (s, n, 17%Z)
  | S fuel' =>
      match best (value m e) k (candidates m e n0 k) with
      | Some (s, n) => (s, n, k)
      | None => shortest fuel' m e n0 (k + 1)
      end
  end.

(** A decade at or below the number: with [2^l <= x < 2^(l+1)], the floor of
    [l] times a bound of [log10 2] from the right side is at most [log10 x],
    and less than three below it over the whole exponent range. *)
Definition magnitude_start (m : positive) (e : Z) : Z :=
  let l := (Zpos (digits2_pos m) + e - 1)%Z in
  ((l * (if (0 <=? l)%Z then 30102 else 30103)) / 100000)%Z.

Definition digits (m : positive) (e : Z) : Z * Z * Z :=
  shortest 16 m e (magnitude 8 (magnitude_start m e) (value m e)) 1.

Local Close Scope Q_scope.
Local Open Scope Z_scope.

Definition zeros (n : Z) : jsstring := repeat 48%N (Z.to_nat n).

(** Steps 6 to 10 of [Number::toString]: plain notation for
    [-6 < n <= 21], exponent notation otherwise. *)
Definition layout (s n k : Z) : jsstring :=
  let d := decimal (Z.to_N s) in
  if (-6 <? n) && (n <=? 21) then
    if k <=? n then d ++ zeros (n - k)
    else if 0 <? n then firstn (Z.to_nat n) d ++ str "." ++ skipn (Z.to_nat n) d
    else str "0." ++ zeros (- n) ++ d
  else
    let e := n - 1 in
    let sign := if 0 <=? e then str "+" else str "-" in
    let mantissa := if k =? 1 then d else firstn 1 d ++ str "." ++ skipn 1 d in
    mantissa ++ str "e" ++ sign ++ decimal (Z.abs_N e).

Definition toString (x : number) : jsstring :=
  match x with
  | S754_nan => str "NaN"
  | S754_zero _ => str "0"
  | S754_infinity false => str "Infinity"
  | S754_infinity true => str "-Infinity"
  | S754_finite sign m e =>
      let '(s, n, k) := digits m e in
      (if sign then str "-" else []) ++ layout s n k
  end.

End Number.

(* ===================================================================== *)
(** * The arithmetic fragment of the expression language

    What [Function("return (" + input + ")")()] computes when the body is
    [return] followed by an expression built from decimal literals, the
    binary operators [+ - * /], the unary signs and parentheses.  Everything
    else the alphabet of the Calculator can spell (comments, regular
    expression literals, [**], [++], [--], calls, literals with a leading
    zero or more than twenty digits, a body of several statements) and every
    text that is no expression at all is left undetermined: [None]. *)
(* ===================================================================== *)

Module Arith.

Import Number.
Local Open Scope N_scope.

Inductive token : Type :=
| TNum (x : number)
| TPlus | TMinus | TStar | TSlash | TLParen | TRParen.

(** The literal being read: none, the digits of the integer part (latest
    first), or integer and fraction digits. *)
Inductive pending : Type :=
| NoLiteral
| IntPart (ds : list N)
| FracPart (ints fracs : list N).

Definition digits_value (ds_rev : list N) : Z :=
  fold_right (fun d acc => (acc * 10 + Z.of_N (d - 48))%Z) 0%Z ds_rev.

(** A DecimalIntegerLiteral is 0 or starts with a non-zero digit. *)
Definition plain_integer (ds_rev : list N) : bool :=
  match rev ds_rev with
  | [] => true
  | [_] => true
  | d :: _ :: _ => negb (d =? 48)
  end.

(** The token of the literal read so far; [Some []] when there is none. *)
Definition close (p : pending) : option (list token) :=
  match p with
  | NoLiteral => Some []
  | IntPart ds =>
      if plain_integer ds && (List.length ds <=? 20)%nat
      then Some [TNum (of_Z (digits_value ds))]
      else None
  | FracPart ints fracs =>
      match ints, fracs with
      | [], [] => None
      | _, _ =>
          if plain_integer ints && (List.length ints + List.length fracs <=? 20)%nat
          then Some [TNum (of_ratio (digits_value (fracs ++ ints))
                                    (10 ^ Z.of_nat (List.length fracs)))]
          else None
      end
  end.

Definition starts_with (c : N) (s : jsstring) : bool :=
  match s with
  | c' :: _ => c =? c'
  | [] => false
  end.

(** The punctuator at [c], unless [c] and the next character begin one of
    [++ -- ** // /*]. *)
Definition punctuator (c : N) (rest : jsstring) : option token :=
  if c =? 43 then if starts_with 43 rest then None else Some TPlus
  else if c =? 45 then if starts_with 45 rest then None else Some TMinus
  else if c =? 42 then if starts_with 42 rest then None else Some TStar
  else if c =? 47 then
    if starts_with 47 rest || starts_with 42 rest then None else Some TSlash
  else if c =? 40 then Some TLParen
  else if c =? 41 then Some TRParen
  else None.

Definition emit (front : option (list token)) (back : option (list token))
  : option (list token) :=
  match front, back with
  | Some a, Some b => Some (a ++ b)
  | _, _ => None
  end.

Fixpoint lex (p : pending) (s : jsstring) : option (list token) :=
  match s with
  | [] => close p
  | c :: rest =>
      if is_digit c then
        match p with
        | NoLiteral => lex (IntPart [c]) rest
        | IntPart ds => lex (IntPart (c :: ds)) rest
        | FracPart ints fracs => lex (FracPart ints (c :: fracs)) rest
        end
      else if c =? 46 then
        match p with
        | NoLiteral => lex (FracPart [] []) rest
        | IntPart ds => lex (FracPart ds []) rest
        | FracPart _ _ => None
        end
      else if is_space c then emit (close p) (lex NoLiteral rest)
      else
        match punctuator c rest with
        | Some t => emit (close p) (emit (Some [t]) (lex NoLiteral rest))
        | None => None
        end
  end.

Inductive expr : Type :=
| ENum (x : number)
| EPos (e : expr)
| ENeg (e : expr)
| EAdd (a b : expr)
| ESub (a b : expr)
| EMul (a b : expr)
| EDiv (a b : expr).

(** Recursive descent, one unit of fuel a call.
    [level 0]: additive, [level 1]: multiplicative, [level 2]: unary and
    primary; [tail] continues a left-associative chain. *)
Fixpoint parse (fuel : nat) (level : nat) (ts : list token) : option (expr * list token) :=
  match fuel with
  | O => None
  | S fuel' =>
      match level with
      | O =>
          match parse fuel' 1%nat ts with
          | Some (a, ts') => tail fuel' 0%nat a ts'
          | None => None
          end
      | S O =>
          match parse fuel' 2%nat ts with
          | Some (a, ts') => tail fuel' 1%nat a ts'
          | None => None
          end
      | _ =>
          match ts with
          | TNum x :: ts' => Some (ENum x, ts')
          | TPlus :: ts' =>
              match parse fuel' 2%nat ts' with
              | Some (a, ts'') => Some (EPos a, ts'')
              | None => None
              end
          | TMinus :: ts' =>
              match parse fuel' 2%nat ts' with
              | Some (a, ts'') => Some (ENeg a, ts'')
              | None => None
              end
          | TLParen :: ts' =>
              match parse fuel' 0%nat ts' with
              | Some (a, TRParen :: ts'') => Some (a, ts'')
              | _ => None
              end
          | _ => None
          end
      end
  end
with tail (fuel : nat) (level : nat) (a : expr) (ts : list token) : option (expr * list token) :=
  match fuel with
  | O => None
  | S fuel' =>
      match level, ts with
      | O, TPlus :: ts' =>
          match parse fuel' 1%nat ts' with
          | Some (b, ts'') => tail fuel' 0%nat (EAdd a b) ts''
          | None => None
          end
      | O, TMinus :: ts' =>
          match parse fuel' 1%nat ts' with
          | Some (b, ts'') => tail fuel' 0%nat (ESub a b) ts''
          | None => None
          end
      | S O, TStar :: ts' =>
          match parse fuel' 2%nat ts' with
          | Some (b, ts'') => tail fuel' 1%nat (EMul a b) ts''
          | None => None
          end
      | S O, TSlash :: ts' =>
          match parse fuel' 2%nat ts' with
          | Some (b, ts'') => tail fuel' 1%nat (EDiv a b) ts''
          | None => None
          end
      | _, _ => Some (a, ts)
      end
  end.

Fixpoint eval (e : expr) : number :=
  match e with
  | ENum x => x
  | EPos a => eval a
  | ENeg a => neg (eval a)
  | EAdd a b => add (eval a) (eval b)
  | ESub a b => sub (eval a) (eval b)
  | EMul a b => mul (eval a) (eval b)
  | EDiv a b => div (eval a) (eval b)
  end.

(** The value returned by the function whose body is [body], when [body] is
    [return (] and the rest of one expression of the fragment; the bracket
    on the line of [return] keeps the statement from ending there. *)
Definition run_body (body : jsstring) : option number :=
  match strip_prefix (str "return (") body with
  | None => None
  | Some rest =>
      match lex NoLiteral (40 :: rest) with
      | None => None
      | Some ts =>
          match parse (4 * List.length ts + 4) 0 ts with
          | Some (e, []) => Some (eval e)
          | _ => None
          end
      end
  end.

End Arith.

(* ===================================================================== *)
(** * The agent *)
(* ===================================================================== *)

(** ** Type definitions *)

Inductive Role : Type := system | user | assistant.

Record ChatMessage : Type := { role : Role; content : jsstring }.

Record Tool : Type := {
  name : jsstring;
  description : jsstring;
  run : jsstring -> Completion jsstring
}.

Record AgentState : Type := {
  messages : list ChatMessage;
  tools : list Tool;
  current_step : Z;
  final_answer : option jsstring
}.

(** [{ ...state, messages: ms }], [{ ...state, final_answer: a }] and
    [{ ...state, current_step: n }]. *)
Definition with_messages (state : AgentState) (ms : list ChatMessage) : AgentState :=
  {| messages := ms; tools := tools state;
     current_step := current_step state; final_answer := final_answer state |}.
Definition with_final_answer (state : AgentState) (a : jsstring) : AgentState :=
  {| messages := messages state; tools := tools state;
     current_step := current_step state; final_answer := Some a |}.
Definition with_current_step (state : AgentState) (n : Z) : AgentState :=
  {| messages := messages state; tools := tools state;
     current_step := n; final_answer := final_answer state |}.

(** ** What the file takes from outside *)

(** A value returned by [Function(...)()]: a Number, or any other value,
    kept as the text [String] makes of it. *)
Inductive JSValue : Type :=
| JSNumber (x : Number.number)
| JSOther (text : jsstring).

(** What [callOpenRouter] reads of the response of [fetch]: [ok], [status],
    the outcome of [text()], and the outcome of [json()] followed by
    [data.choices?.[0]?.message?.content], [None] when that is no string. *)
Record Response : Type := {
  ok : bool;
  status : N;
  text : Completion jsstring;
  json_content : Completion (option jsstring)
}.

Class Env : Type := {
  (** [String.prototype.toLowerCase] *)
  toLowerCase : jsstring -> jsstring;
  (** [Function(body)()] *)
  Function_call : jsstring -> Completion JSValue;
  (** the chat completion request for a transcript *)
  fetch : list ChatMessage -> Completion Response
}.

(** [String(result)]. *)
Definition String (v : JSValue) : jsstring :=
  match v with
  | JSNumber x => Number.toString x
  | JSOther text => text
  end.

Section Agent.
Context {E : Env}.

(** ** Tools *)

(** [/^[0-9.+\-*\/()\s]+$/] *)
Definition calculator_class (c : code_unit) : bool :=
  is_digit c || N.eqb c 46 || N.eqb c 43 || N.eqb c 45 || N.eqb c 42
  || N.eqb c 47 || N.eqb c 40 || N.eqb c 41 || is_space c.
Definition calculatorRe : regex := Cat Bos (Cat (Plus calculator_class) Eos).

(** The [run] of the Calculator, with the bodies handed to [Function] on the
    way: the result text and the list of evaluator calls made. *)
Definition Calculator_run (input : jsstring) : jsstring * list jsstring :=
  if negb (test calculatorRe input) then (str "Invalid expression", [])
  else
    let body := str "return (" ++ input ++ str ")" in
    match Function_call body with
    | Normal result => (String result, [body])
    | Throw message => (str "Error: " ++ message, [body])
    end.

Definition Calculator : Tool :=
  {| name := str "Calculator";
     description := str "Performs arithmetic calculations. Usage: Calculator[expression]";
     run := fun input => Normal (fst (Calculator_run input)) |}.

Definition the_tools : list Tool := [Calculator].

(** ** System prompt *)

Definition toolDescriptions : jsstring :=
  join (str "
") (List.map (fun t => name t ++ str ": " ++ description t) the_tools).

Definition systemPrompt : jsstring :=
  str "You are a smart assistant with access to the following tools:
" ++ toolDescriptions ++ str "

When answering the user, you may use the tools to gather information or calculate results.
Follow this format strictly:
Thought: <your reasoning here>
Action: <ToolName>[<tool input>]
Observation: <result of the tool action>
... (you can repeat Thought/Action/Observation as needed) ...
Thought: <final reasoning>
Answer: <your final answer to the user's query>

Only provide one action at a time, and wait for the observation before continuing. 
If the answer is directly known or once you have gathered enough information, output the final Answer.
".

(** ** OpenRouter API call *)

Definition callOpenRouter (msgs : list ChatMessage) : Completion jsstring :=
  bind (fetch msgs) (fun response =>
    if negb (ok response) then
      bind (text response) (fun errorText =>
        Throw (str "OpenRouter API error: HTTP " ++ decimal (status response)
               ++ str " - " ++ errorText))
    else
      bind (json_content response) (fun c =>
        match c with
        | Some reply => Normal reply
        | None => Throw (str "Invalid response from LLM (no content)")
        end)).

(** ** Workflow nodes *)

(** [state.messages[state.messages.length - 1]]; reading [.content] of the
    [undefined] an empty transcript gives throws a TypeError. *)
Definition lastMessage (state : AgentState) : Completion ChatMessage :=
  match rev (messages state) with
  | m :: _ => Normal m
  | [] => Throw (str "Cannot read properties of undefined (reading 'content')")
  end.

(** Node: parse input and decide next action. *)
Definition parse_input (state : AgentState) : Completion AgentState :=
  bind (callOpenRouter (messages state)) (fun reply =>
    Normal (with_messages state
              (messages state ++ [{| role := assistant; content := reply |}]))).

(** [/Action:\s*([^\[]+)\[([^\]]+)\]/] *)
Definition not_lbracket (c : code_unit) : bool := negb (N.eqb c 91).
Definition not_rbracket (c : code_unit) : bool := negb (N.eqb c 93).
Definition actionRe : regex :=
  Cat (Lit (str "Action:"))
   (Cat (Star is_space)
    (Cat (Group (Plus not_lbracket))
     (Cat (Lit (str "["))
      (Cat (Group (Plus not_rbracket))
           (Lit (str "]")))))).

(** [state.tools.find(t => t.name.toLowerCase() === toolName.trim().toLowerCase())] *)
Definition find_tool (ts : list Tool) (toolName : jsstring) : option Tool :=
  find (fun t => JS.eqb (toLowerCase (name t)) (toLowerCase (trim toolName))) ts.

(** The observation text for a parsed action. *)
Definition observe (ts : list Tool) (toolName toolInput : jsstring) : jsstring :=
  match find_tool ts toolName with
  | None => str "Tool " ++ [dquote] ++ toolName ++ [dquote] ++ str " not found"
  | Some tool =>
      match run tool (trim toolInput) with
      | Normal result => result
      | Throw message => str "Error: " ++ message
      end
  end.

(** Node: execute tool if needed.  A match of the pattern always carries its
    two groups ([actionRe_groups] below), so the last branch is never taken. *)
Definition tool_executor (state : AgentState) : Completion AgentState :=
  bind (lastMessage state) (fun last =>
    match String_match (content last) actionRe with
    | None => Normal state
    | Some (_ :: toolName :: toolInput :: _) =>
        let observation := observe (tools state) toolName toolInput in
        Normal (with_messages state
                  (messages state
                   ++ [{| role := system; content := str "Observation: " ++ observation |}]))
    | Some _ => Throw (str "Cannot read properties of undefined (reading 'trim')")
    end).

(** The pattern of the answer: [Answer:], then [\s*], then the group of
    [.*], then [$]. *)
Definition dot (c : code_unit) : bool := negb (is_line_terminator c).
Definition answerRe : regex :=
  Cat (Lit (str "Answer:")) (Cat (Star is_space) (Cat (Group (Star dot)) Eos)).

(** Node: generate response or continue.  A match carries the one group of
    the pattern, so the branch that throws is never taken. *)
Definition response_generator (state : AgentState) : Completion AgentState :=
  bind (lastMessage state) (fun last =>
    match String_match (content last) answerRe with
    | Some (_ :: answer :: _) => Normal (with_final_answer state (trim answer))
    | Some _ => Throw (str "Cannot read properties of undefined (reading 'trim')")
    | None => Normal (with_current_step state (current_step state + 1))
    end).

(** ** The graph *)

Inductive Node : Type := node_parse_input | node_tool_executor | node_response_generator.

Definition node_action (n : Node) : AgentState -> Completion AgentState :=
  match n with
  | node_parse_input => parse_input
  | node_tool_executor => tool_executor
  | node_response_generator => response_generator
  end.

(** A string is truthy unless it is empty; [undefined] is not. *)
Definition truthy (a : option jsstring) : bool :=
  match a with
  | Some (_ :: _) => true
  | _ => false
  end.

Inductive Route : Type := route_end | route_continue.

(** The condition of [addConditionalEdges]. *)
Definition route (state : AgentState) : Route :=
  if truthy (final_answer state) then route_end
  else if (10 <=? current_step state)%Z then route_end
  else route_continue.

(** The edges: the node that runs next, [None] for [END]. *)
Definition next_node (n : Node) (state : AgentState) : option Node :=
  match n with
  | node_parse_input => Some node_tool_executor
  | node_tool_executor => Some node_response_generator
  | node_response_generator =>
      match route state with
      | route_end => None
      | route_continue => Some node_parse_input
      end
  end.

Inductive Outcome : Type :=
| Finished (result : AgentState)          (* END reached *)
| Failed (message : jsstring)             (* a node threw: invoke rejects *)
| Running (n : Node) (state : AgentState). (* still to run when the fuel ended *)

(** Execution from node [n], at most [fuel] node executions: the nodes run,
    in order, and how the run stands.  [invoke] enters at [parse_input]. *)
Fixpoint graph_run (fuel : nat) (n : Node) (state : AgentState) : list Node * Outcome :=
  match fuel with
  | O => ([], Running n state)
  | S fuel' =>
      match node_action n state with
      | Throw message => ([n], Failed message)
      | Normal state' =>
          match next_node n state' with
          | None => ([n], Finished state')
          | Some n' =>
              let '(trace, outcome) := graph_run fuel' n' state' in
              (n :: trace, outcome)
          end
      end
  end.

Definition invoke (fuel : nat) (initial : AgentState) : list Node * Outcome :=
  graph_run fuel node_parse_input initial.

(** One turn of the loop and [n] turns in a row, whatever the route says. *)
Definition cycle (state : AgentState) : Completion AgentState :=
  bind (parse_input state) (fun s1 =>
  bind (tool_executor s1) response_generator).


(** ** HTTP server: the part of the POST handler around [graph.invoke] *)

Definition initial_state (query : jsstring) : AgentState :=
  {| messages := [ {| role := system; content := systemPrompt |};
                   {| role := user; content := query |} ];
     tools := the_tools;
     current_step := 0;
     final_answer := None |}.

(** [result.final_answer ?? "No answer generated within step limit."] *)
Definition fallback_answer : jsstring := str "No answer generated within step limit.".
Definition responseData (result : AgentState) : jsstring :=
  match final_answer result with
  | Some a => a
  | None => fallback_answer
  end.


End Agent.

(* ===================================================================== *)
(** * Environments to run the agent in *)
(* ===================================================================== *)

(** An environment agrees with the expression language on the arithmetic
    fragment when [Function] returns what [Arith.run_body] determines. *)
Definition conforms (E : Env) : Prop :=
  forall body x, Arith.run_body body = Some x -> Function_call body = Normal (JSNumber x).

(** The environment of a scripted model: [llm] gives the outcome of the chat
    completion for a transcript.  [Function] follows the arithmetic fragment
    and throws outside it, where the fragment fixes nothing; [toLowerCase] is
    its Basic Latin part. *)
Definition scripted_fetch (llm : list ChatMessage -> Completion jsstring)
           (msgs : list ChatMessage) : Completion Response :=
  match llm msgs with
  | Normal reply =>
      Normal {| ok := true; status := 200; text := Normal [];
                json_content := Normal (Some reply) |}
  | Throw message => Throw message
  end.

Definition scripted_env (llm : list ChatMessage -> Completion jsstring) : Env :=
  {| toLowerCase := ascii_toLowerCase;
     Function_call := fun body =>
       match Arith.run_body body with
       | Some x => Normal (JSNumber x)
       | None => Throw (str "SyntaxError")
       end;
     fetch := scripted_fetch llm |}.

(** Models for the scenarios: one reply whatever the transcript, and the
    model of scenario A, which asks for the Calculator first and answers once
    the transcript has grown. *)
Definition model_always (reply : jsstring) : list ChatMessage -> Completion jsstring :=
  fun _ => Normal reply.

Definition model_scenario_A (msgs : list ChatMessage) : Completion jsstring :=
  if Nat.ltb (List.length msgs) 3
  then Normal (str "Thought: I should add.
Action: Calculator[2+2]")
  else Normal (str "Thought: done.
Answer: 4").

(** Scenario B: the model keeps asking for a tool that is not registered. *)
Definition env_weather : Env := scripted_env (model_always (str "Action: Weather[NYC]")).


(** A reply that is an answer only. *)
Definition env_answer : Env :=
  scripted_env (model_always (str "Thought: I know this.
Answer:  4 ")).

Definition env_scenario_A : Env := scripted_env model_scenario_A.




(* ===================================================================== *)
(** * HTTP server *)
(* ===================================================================== *)

(** A value [JSON.parse] can return; the fields of an object in the order
    of the text. *)
#[warnings="-register-all"]
Inductive JSON : Type :=
| JNull
| JBool (b : bool)
| JNumber (x : Number.number)
| JString (s : jsstring)
| JArray (items : list JSON)
| JObject (fields : list (jsstring * JSON)).

Module Json.

Local Open Scope N_scope.

(** The own property [key] of a parsed object: the last field of that name. *)
Fixpoint lookup (key : jsstring) (fields : list (jsstring * JSON)) : option JSON :=
  match fields with
  | [] => None
  | (k, v) :: rest =>
      match lookup key rest with
      | Some v' => Some v'
      | None => if JS.eqb k key then Some v else None
      end
  end.

(** [data.key] for a key no prototype defines, as [query] and [question]:
    the own property of an object, [undefined] ([None]) on an object without
    it and on arrays, strings, numbers and booleans, a TypeError on [null]. *)
Definition property (data : JSON) (key : jsstring) : Completion (option JSON) :=
  match data with
  | JNull =>
      Throw (str "Cannot read properties of null (reading '" ++ key ++ str "')")
  | JObject fields => Normal (lookup key fields)
  | _ => Normal None
  end.

Definition hex_digit (n : N) : code_unit := if n <? 10 then 48 + n else 87 + n.

(** [UnicodeEscape]: [\u] and four lowercase hexadecimal digits. *)
Definition unicode_escape (c : code_unit) : jsstring :=
  [92; 117; hex_digit (c / 4096 mod 16); hex_digit (c / 256 mod 16);
   hex_digit (c / 16 mod 16); hex_digit (c mod 16)].

Definition is_leading_surrogate (c : code_unit) : bool := (55296 <=? c) && (c <=? 56319).
Definition is_trailing_surrogate (c : code_unit) : bool := (56320 <=? c) && (c <=? 57343).

(** The escape of one code unit that is no half of a surrogate pair. *)
Definition quote_unit (c : code_unit) : jsstring :=
  if c =? 8 then [92; 98]
  else if c =? 9 then [92; 116]
  else if c =? 10 then [92; 110]
  else if c =? 12 then [92; 102]
  else if c =? 13 then [92; 114]
  else if c =? 34 then [92; 34]
  else if c =? 92 then [92; 92]
  else if (c <? 32) || is_leading_surrogate c || is_trailing_surrogate c
       then unicode_escape c
  else [c].

(** The characters of [QuoteJSONString] between the quotes: a surrogate pair
    is kept, a lone surrogate escaped. *)
Fixpoint quote_chars (s : jsstring) : jsstring :=
  match s with
  | [] => []
  | c :: tl =>
      match tl with
      | d :: rest =>
          if is_leading_surrogate c && is_trailing_surrogate d
          then c :: d :: quote_chars rest
          else quote_unit c ++ quote_chars tl
      | [] => quote_unit c
      end
  end.

Definition quote (s : jsstring) : jsstring := [dquote] ++ quote_chars s ++ [dquote].

(** [JSON.stringify] of a parsed value, no indentation. *)
Fixpoint stringify (v : JSON) : jsstring :=
  match v with
  | JNull => str "null"
  | JBool true => str "true"
  | JBool false => str "false"
  | JNumber x =>
      match x with
      | S754_nan | S754_infinity _ => str "null"
      | _ => Number.toString x
      end
  | JString s => quote s
  | JArray items =>
      str "[" ++ join (str ",") (List.map stringify items) ++ str "]"
  | JObject fields =>
      str "{"
      ++ join (str ",")
           (List.map (fun kv : jsstring * JSON =>
                        quote (fst kv) ++ str ":" ++ stringify (snd kv)) fields)
      ++ str "}"
  end.

End Json.

(** What the handler reads of a request: the method and the outcome of
    [req.json()]. *)
Record Request : Type := {
  method : jsstring;
  json : Completion JSON
}.

(** A response: the status (200 when none is given), the headers given, the
    body text. *)
Record HttpResponse : Type := {
  http_status : N;
  headers : list (jsstring * jsstring);
  body : jsstring
}.

Definition json_headers : list (jsstring * jsstring) :=
  [(str "Content-Type", str "application/json")].

Section Server.
Context {E : Env}.

(** [String(err)] of the value the handler catches, read when the message of
    that value is empty. *)
Variable String_err : jsstring.

(** The reply to GET. *)
Definition welcome : JSON :=
  JObject
    [(str "message", JString (str "Welcome to the Single File ReAct Agent with LangGraph!"));
     (str "usage",
      JString (str "Send a POST request with JSON body: { " ++ [dquote] ++ str "query"
               ++ [dquote] ++ str ": " ++ [dquote] ++ str "your question" ++ [dquote]
               ++ str " }"))].

(** [const data = await req.json(); query = data.query ?? data.question]. *)
Definition read_query (req : Request) : Completion (option JSON) :=
  bind (json req) (fun data =>
  bind (Json.property data (str "query")) (fun q =>
    match q with
    | None | Some JNull => Json.property data (str "question")
    | Some _ => Normal q
    end)).

(** [(err as Error).message || String(err)]. *)
Definition errorMsg (message : jsstring) : jsstring :=
  match message with
  | [] => String_err
  | _ :: _ => message
  end.

(** The handler given to [serve]; [None] when the run has not ended within
    [fuel] node executions. *)
Definition serve_handler (fuel : nat) (req : Request) : option HttpResponse :=
  if JS.eqb (method req) (str "GET") then
    Some {| http_status := 200; headers := json_headers; body := Json.stringify welcome |}
  else if negb (JS.eqb (method req) (str "POST")) then
    Some {| http_status := 405; headers := []; body := str "Method Not Allowed" |}
  else
    match read_query req with
    | Throw _ =>
        Some {| http_status := 400; headers := []; body := str "Invalid JSON body" |}
    | Normal (Some (JString (c :: q))) =>
        match snd (invoke fuel (initial_state (c :: q))) with
        | Finished result =>
            Some {| http_status := 200; headers := json_headers;
                    body := Json.stringify
                              (JObject [(str "answer", JString (responseData result))]) |}
        | Failed message =>
            Some {| http_status := 500; headers := json_headers;
                    body := Json.stringify
                              (JObject [(str "error", JString (errorMsg message))]) |}
        | Running _ _ => None
        end
    | Normal _ =>
        Some {| http_status := 400; headers := [];
                body := str "Bad Request: Missing " ++ [dquote] ++ str "query" ++ [dquote]
                        ++ str " string." |}
    end.

End Server.

(** Requests: a POST with a JSON body, and the body with one [query]. *)
Definition post (data : JSON) : Request := {| method := str "POST"; json := Normal data |}.
Definition query_body (q : jsstring) : JSON := JObject [(str "query", JString q)].

(* ===================================================================== *)
(** * Notions the statements use *)
(* ===================================================================== *)

(** The number of capture groups of a pattern. *)
Fixpoint groups (r : regex) : nat :=
  match r with
  | Group r' => S (groups r')
  | Cat r1 r2 => groups r1 + groups r2
  | _ => 0
  end.

(** The text after each occurrence of [pat] in [s], leftmost first. *)
Fixpoint rests_after (pat s : jsstring) : list jsstring :=
  match strip_prefix pat s with
  | Some rest => [rest]
  | None => []
  end ++
  match s with
  | [] => []
  | _ :: s' => rests_after pat s'
  end.

(** The pattern after [Action:] and the white space: name, bracket,
    argument, bracket. *)
Definition directive : regex :=
  Cat (Group (Plus not_lbracket))
   (Cat (Lit (str "["))
    (Cat (Group (Plus not_rbracket)) (Lit (str "]")))).

(** After [Action:], an opening bracket at once: no name at all. *)
Definition bracket_at_once (rest : jsstring) : bool := Arith.starts_with 91%N rest.

(** After [Action:], the first opening bracket is closed at once: no
    argument. *)
Definition empty_argument (rest : jsstring) : bool :=
  match dropWhile not_lbracket rest with
  | 91%N :: 93%N :: _ => true
  | _ => false
  end.

Section Runs.
Context {E : Env}.

(** A configuration: the node about to run ([None] once [END] is reached)
    and the state it receives. *)
Definition config : Type := option Node * AgentState.

Inductive step : config -> config -> Prop :=
| step_node : forall n state state',
    node_action n state = Normal state' ->
    step (Some n, state) (next_node n state', state').

Inductive reachable (initial : AgentState) : config -> Prop :=
| reach_start : reachable initial (Some node_parse_input, initial)
| reach_step : forall c c', reachable initial c -> step c c' -> reachable initial c'.



(** A message a run may append: the message of the model, or an observation
    in the system role. *)
Definition appended_by_run (m : ChatMessage) : Prop :=
  role m = assistant
  \/ (role m = system /\ exists text, content m = str "Observation: " ++ text).



End Runs.

(* ===================================================================== *)
(** * Properties of the matcher *)
(* ===================================================================== *)

Section MatcherFacts.
Variable R : Type.

Lemma strip_prefix_app (p t : jsstring) : strip_prefix p (p ++ t) = Some t.
Proof.
  induction p as [|c p IH]; simpl; [reflexivity|].
  rewrite N.eqb_refl. exact IH.
Qed.

Lemma strip_prefix_inv (p s t : jsstring) : strip_prefix p s = Some t -> s = p ++ t.
Proof.
  revert s. induction p as [|c p IH]; intros s H; simpl in *.
  - congruence.
  - destruct s as [|d s]; [discriminate|].
    destruct (N.eqb_spec c d) as [->|]; [|discriminate].
    f_equal. now apply IH.
Qed.

(** A success of a greedy repetition is a success of what follows, after
    some prefix of characters of the class. *)
Lemma greedy_some (cls : code_unit -> bool) (k : nat -> jsstring -> option R) :
  forall s pos r, greedy cls pos s k = Some r ->
  exists i, (i <= List.length s)%nat /\ forallb cls (firstn i s) = true
            /\ k (pos + i)%nat (skipn i s) = Some r.
Proof.
  induction s as [|c s IH]; intros pos r H; simpl in H.
  - exists 0%nat. rewrite Nat.add_0_r. simpl. auto.
  - destruct (cls c) eqn:Hc.
    + destruct (greedy cls (S pos) s k) eqn:Hg.
      * injection H as <-. destruct (IH _ _ Hg) as (i & Hi & Hall & Hk).
        exists (S i). simpl. rewrite Hc, Hall.
        replace (pos + S i)%nat with (S pos + i)%nat by lia.
        repeat split; auto; lia.
      * exists 0%nat. rewrite Nat.add_0_r. simpl. repeat split; auto; lia.
    + exists 0%nat. rewrite Nat.add_0_r. simpl. repeat split; auto; lia.
Qed.

(** It fails when what follows fails after every such prefix. *)
Lemma greedy_none (cls : code_unit -> bool) (k : nat -> jsstring -> option R) :
  forall s pos,
  (forall i, (i <= List.length s)%nat -> forallb cls (firstn i s) = true ->
             k (pos + i)%nat (skipn i s) = None) ->
  greedy cls pos s k = None.
Proof.
  induction s as [|c s IH]; intros pos H; simpl.
  - specialize (H 0%nat). rewrite Nat.add_0_r in H. apply H; simpl; auto.
  - assert (H0 : k pos (c :: s) = None).
    { specialize (H 0%nat). rewrite Nat.add_0_r in H. apply H; simpl; auto; lia. }
    destruct (cls c) eqn:Hc; [|exact H0].
    rewrite IH; [exact H0|].
    intros i Hi Hall. specialize (H (S i)). simpl in H. rewrite Hc in H.
    replace (S pos + i)%nat with (pos + S i)%nat by lia.
    apply H; [lia|exact Hall].
Qed.

(** The longest prefix is tried first. *)
Lemma greedy_longest (cls : code_unit -> bool) (k : nat -> jsstring -> option R) :
  forall a t pos r,
  forallb cls a = true ->
  (forall c t', t = c :: t' -> cls c = false) ->
  k (pos + List.length a)%nat t = Some r ->
  greedy cls pos (a ++ t) k = Some r.
Proof.
  induction a as [|c a IH]; intros t pos r Hall Hstop Hk; simpl in *.
  - rewrite Nat.add_0_r in Hk.
    destruct t as [|d t]; simpl; [exact Hk|].
    rewrite (Hstop d t eq_refl). exact Hk.
  - apply andb_prop in Hall as [Hc Hall]. rewrite Hc.
    rewrite (IH t (S pos) r Hall Hstop); [reflexivity|].
    replace (S pos + List.length a)%nat with (pos + S (List.length a))%nat by lia.
    exact Hk.
Qed.

(** A successful match hands [groups r] captures more to what follows. *)
Lemma rmatch_some (r : regex) :
  forall pos s caps (k : cont R) x,
  rmatch r pos s caps k = Some x ->
  exists pos' s' caps',
    List.length caps' = groups r /\ k pos' s' (caps ++ caps') = Some x.
Proof.
  induction r as [l|cls|cls|r IH|r1 IH1 r2 IH2| |]; intros pos s caps k x H; simpl in *.
  - destruct (strip_prefix l s) as [s'|]; [|discriminate].
    exists (pos + List.length l)%nat, s', []. rewrite app_nil_r. auto.
  - apply greedy_some in H as (i & _ & _ & H).
    exists (pos + i)%nat, (skipn i s), []. rewrite app_nil_r. auto.
  - destruct s as [|c s]; [discriminate|].
    destruct (cls c); [|discriminate].
    apply greedy_some in H as (i & _ & _ & H).
    exists (S pos + i)%nat, (skipn i s), []. rewrite app_nil_r. auto.
  - apply IH in H as (pos' & s' & caps' & Hlen & H).
    exists pos', s', (caps' ++ [firstn (pos' - pos) s]).
    rewrite length_app, Hlen. simpl. rewrite app_assoc. split; [lia|exact H].
  - apply IH1 in H as (pos1 & s1 & caps1 & Hlen1 & H).
    apply IH2 in H as (pos2 & s2 & caps2 & Hlen2 & H).
    exists pos2, s2, (caps1 ++ caps2).
    rewrite length_app, Hlen1, Hlen2, app_assoc. auto.
  - destruct (Nat.eqb pos 0); [|discriminate].
    exists pos, s, []. rewrite app_nil_r. auto.
  - destruct s; [|discriminate].
    exists pos, [], []. rewrite app_nil_r. auto.
Qed.

End MatcherFacts.

(** The array a match returns: the matched text and one entry a group. *)
Lemma match_at_length (r : regex) (pos : nat) (s : jsstring) (m : list jsstring) :
  match_at r pos s = Some m -> List.length m = S (groups r).
Proof.
  unfold match_at. intros H.
  apply rmatch_some in H as (pos' & s' & caps' & Hlen & H).
  injection H as <-. simpl. now rewrite Hlen.
Qed.

Lemma exec_from_some (r : regex) :
  forall s pos m, exec_from r pos s = Some m ->
  exists i, (i <= List.length s)%nat /\ match_at r (pos + i) (skipn i s) = Some m.
Proof.
  induction s as [|c s IH]; intros pos m H; simpl in H.
  - destruct (match_at r pos []) eqn:Hm; [|discriminate].
    exists 0%nat. rewrite Nat.add_0_r. simpl. split; [lia|congruence].
  - destruct (match_at r pos (c :: s)) eqn:Hm.
    + exists 0%nat. rewrite Nat.add_0_r. simpl. split; [lia|congruence].
    + apply IH in H as (i & Hi & H). exists (S i). simpl.
      replace (pos + S i)%nat with (S pos + i)%nat by lia. split; [lia|exact H].
Qed.

(** No attempt succeeds: no match. *)
Lemma exec_from_none (r : regex) :
  forall s pos,
  (forall i, (i <= List.length s)%nat -> match_at r (pos + i) (skipn i s) = None) ->
  exec_from r pos s = None.
Proof.
  induction s as [|c s IH]; intros pos H; simpl.
  - specialize (H 0%nat). rewrite Nat.add_0_r in H. simpl in H. rewrite H; auto.
  - pose proof (H 0%nat) as H0. rewrite Nat.add_0_r in H0. simpl in H0.
    rewrite H0 by lia. apply IH. intros i Hi.
    specialize (H (S i)). simpl in H.
    replace (S pos + i)%nat with (pos + S i)%nat by lia. apply H. lia.
Qed.

(** The attempts left of index [n] fail: the search goes on from [n]. *)
Lemma exec_from_skip (r : regex) :
  forall n s pos,
  (n <= List.length s)%nat ->
  (forall i, (i < n)%nat -> match_at r (pos + i) (skipn i s) = None) ->
  exec_from r pos s = exec_from r (pos + n) (skipn n s).
Proof.
  induction n as [|n IH]; intros s pos Hn H.
  - now rewrite Nat.add_0_r.
  - destruct s as [|c s]; [simpl in Hn; lia|].
    simpl exec_from at 1. pose proof (H 0%nat) as H0. rewrite Nat.add_0_r in H0.
    simpl in H0. rewrite H0 by lia.
    replace (pos + S n)%nat with (S pos + n)%nat by lia. simpl skipn.
    apply IH; [simpl in Hn; lia|].
    intros i Hi. specialize (H (S i)). simpl in H.
    replace (S pos + i)%nat with (pos + S i)%nat by lia. apply H. lia.
Qed.

Lemma String_match_length (s : jsstring) (r : regex) (m : list jsstring) :
  String_match s r = Some m -> List.length m = S (groups r).
Proof.
  unfold String_match. intros H.
  apply exec_from_some in H as (i & _ & H). now apply match_at_length in H.
Qed.

(* ===================================================================== *)
(** * The nodes, one by one *)
(* ===================================================================== *)

Arguments str : simpl never.

Section NodeFacts.
Context {E : Env}.

Lemma JS_eqb_eq (a b : jsstring) : JS.eqb a b = true <-> a = b.
Proof.
  revert b. induction a as [|x a IH]; intros [|y b]; simpl; split; intros H;
    try reflexivity; try discriminate.
  - apply andb_prop in H as [Hx Hab]. apply N.eqb_eq in Hx. apply IH in Hab.
    now subst.
  - injection H as -> ->. rewrite N.eqb_refl. now apply IH.
Qed.


Lemma lastMessage_inv (state : AgentState) (m : ChatMessage) :
  lastMessage state = Normal m -> exists ms, messages state = ms ++ [m].
Proof.
  unfold lastMessage. intros H.
  destruct (rev (messages state)) as [|x l] eqn:Hrev; [discriminate|].
  injection H as ->. exists (rev l).
  rewrite <- (rev_involutive (messages state)), Hrev. reflexivity.
Qed.

Lemma parse_input_inv (state s1 : AgentState) :
  parse_input state = Normal s1 ->
  exists reply,
    callOpenRouter (messages state) = Normal reply /\
    s1 = with_messages state (messages state ++ [{| role := assistant; content := reply |}]).
Proof.
  unfold parse_input. destruct (callOpenRouter (messages state)) as [reply|];
    simpl; intros H; [|discriminate].
  exists reply. split; congruence.
Qed.

(** The groups of the action pattern. *)
Lemma actionRe_groups (s : jsstring) (m : list jsstring) :
  String_match s actionRe = Some m ->
  exists whole toolName toolInput, m = [whole; toolName; toolInput].
Proof.
  intros H. apply String_match_length in H. simpl in H.
  destruct m as [|w [|n [|i [|]]]]; try discriminate. eauto.
Qed.

Lemma answerRe_groups (s : jsstring) (m : list jsstring) :
  String_match s answerRe = Some m -> exists whole answer, m = [whole; answer].
Proof.
  intros H. apply String_match_length in H. simpl in H.
  destruct m as [|w [|a [|]]]; try discriminate. eauto.
Qed.

(** Tool dispatch returns the state as it is or with one observation more. *)
Lemma tool_executor_inv (state s2 : AgentState) :
  tool_executor state = Normal s2 ->
  exists last,
    lastMessage state = Normal last /\
    ((String_match (content last) actionRe = None /\ s2 = state) \/
     (exists whole toolName toolInput,
        String_match (content last) actionRe = Some [whole; toolName; toolInput] /\
        s2 = with_messages state
               (messages state
                ++ [{| role := system;
                       content := str "Observation: "
                                  ++ observe (tools state) toolName toolInput |}]))).
Proof.
  unfold tool_executor. destruct (lastMessage state) as [last|]; simpl; [|discriminate].
  intros H. exists last. split; [reflexivity|].
  destruct (String_match (content last) actionRe) as [m|] eqn:Hm.
  - destruct (actionRe_groups _ Hm) as (w & n & i & ->).
    right. exists w, n, i. split; [reflexivity|congruence].
  - left. split; congruence.
Qed.

(** The answer check sets the answer or counts the step, nothing else. *)
Lemma response_generator_inv (state s3 : AgentState) :
  response_generator state = Normal s3 ->
  exists last,
    lastMessage state = Normal last /\
    ((String_match (content last) answerRe = None /\
      s3 = with_current_step state (current_step state + 1)) \/
     (exists whole answer,
        String_match (content last) answerRe = Some [whole; answer] /\
        s3 = with_final_answer state (trim answer))).
Proof.
  unfold response_generator. destruct (lastMessage state) as [last|]; simpl; [|discriminate].
  intros H. exists last. split; [reflexivity|].
  destruct (String_match (content last) answerRe) as [m|] eqn:Hm.
  - destruct (answerRe_groups _ Hm) as (w & a & ->).
    right. exists w, a. split; [reflexivity|congruence].
  - left. split; congruence.
Qed.

Lemma cycle_inv (state state' : AgentState) :
  cycle state = Normal state' ->
  exists s1 s2,
    parse_input state = Normal s1 /\ tool_executor s1 = Normal s2
    /\ response_generator s2 = Normal state'.
Proof.
  unfold cycle. destruct (parse_input state) as [s1|]; simpl; [|discriminate].
  destruct (tool_executor s1) as [s2|] eqn:H2; simpl; [|discriminate].
  intros H. exists s1, s2. repeat split; assumption.
Qed.

(** What each node does to the step counter. *)
Lemma node_action_step (n : Node) (state state' : AgentState) :
  node_action n state = Normal state' ->
  (current_step state' = current_step state
   \/ (n = node_response_generator /\ current_step state' = current_step state + 1))%Z.
Proof.
  destruct n; simpl; intros H.
  - apply parse_input_inv in H as (reply & _ & ->). now left.
  - apply tool_executor_inv in H as (last & _ & [[_ ->]|(w & t & i & _ & ->)]); now left.
  - apply response_generator_inv in H as (last & _ & [[_ ->]|(w & a & _ & ->)]).
    + right. auto.
    + now left.
Qed.







End NodeFacts.

(* ===================================================================== *)
(** * The control loop *)
(* ===================================================================== *)

Section Loop.
Context {E : Env}.

(** C8. The transcript is append-only: a completed cycle leaves every entry
    where it was and appends the assistant message of the model followed by
    no or one observation, so the length grows by one or by two. *)
Theorem transcript_append_only (state state' : AgentState) :
  cycle state = Normal state' ->
  exists reply obs,
    messages state' = messages state ++ {| role := assistant; content := reply |} :: obs
    /\ (obs = [] \/ exists text,
          obs = [{| role := system; content := str "Observation: " ++ text |}])
    /\ (List.length (messages state') = List.length (messages state) + 1
        \/ List.length (messages state') = List.length (messages state) + 2)
    /\ firstn (List.length (messages state)) (messages state') = messages state
    /\ (forall i m, nth_error (messages state) i = Some m ->
                    nth_error (messages state') i = Some m).
Proof.
  intros H. apply cycle_inv in H as (s1 & s2 & H1 & H2 & H3).
  apply parse_input_inv in H1 as (reply & _ & ->).
  assert (Hshape : exists obs,
             messages state' = messages state ++ {| role := assistant; content := reply |} :: obs
             /\ (obs = [] \/ exists text,
                   obs = [{| role := system; content := str "Observation: " ++ text |}])).
  { apply tool_executor_inv in H2 as (last & _ & [[_ ->]|(w & t & i & _ & ->)]);
      apply response_generator_inv in H3 as (last' & _ & [[_ ->]|(w' & a & _ & ->)]);
      simpl.
    - exists []. auto.
    - exists []. auto.
    - eexists. rewrite <- app_assoc. simpl. split; [reflexivity|]. right. eauto.
    - eexists. rewrite <- app_assoc. simpl. split; [reflexivity|]. right. eauto. }
  destruct Hshape as (obs & Hm & Hobs).
  exists reply, obs. rewrite Hm. repeat split; auto.
  - rewrite length_app. destruct Hobs as [->|[text ->]]; simpl; [left|right]; lia.
  - rewrite firstn_app, Nat.sub_diag, firstn_all. simpl. apply app_nil_r.
  - intros i m Hi. rewrite nth_error_app1; [exact Hi|].
    apply nth_error_Some. congruence.
Qed.

(** C3. For every parsed action, tool dispatch returns normally with exactly
    one system message [Observation: <text>] appended: [Tool "<name>" not
    found], with the name as it was parsed, when no registered tool has the
    trimmed name up to letter case; [Error: <message>] when the tool found
    throws; the result of the tool when it returns.  In all three cases the
    run goes on with the answer check. *)
Theorem tool_dispatch_observation (state : AgentState) (last : ChatMessage)
        (m : list jsstring) :
  lastMessage state = Normal last ->
  String_match (content last) actionRe = Some m ->
  exists whole toolName toolInput text,
    m = [whole; toolName; toolInput]
    /\ tool_executor state =
         Normal (with_messages state
                   (messages state
                    ++ [{| role := system; content := str "Observation: " ++ text |}]))
    /\ ((forall t, In t (tools state) ->
                   toLowerCase (name t) <> toLowerCase (trim toolName)) ->
        text = str "Tool " ++ [dquote] ++ toolName ++ [dquote] ++ str " not found")
    /\ (forall tool message,
          find_tool (tools state) toolName = Some tool ->
          run tool (trim toolInput) = Throw message ->
          text = str "Error: " ++ message)
    /\ (forall tool result,
          find_tool (tools state) toolName = Some tool ->
          run tool (trim toolInput) = Normal result ->
          text = result)
    /\ (forall state', tool_executor state = Normal state' ->
          next_node node_tool_executor state' = Some node_response_generator
          /\ forall fuel,
               graph_run (S fuel) node_tool_executor state =
                 (node_tool_executor :: fst (graph_run fuel node_response_generator state'),
                  snd (graph_run fuel node_response_generator state'))).
Proof.
  intros Hlast Hm.
  destruct (actionRe_groups _ Hm) as (whole & toolName & toolInput & ->).
  exists whole, toolName, toolInput, (observe (tools state) toolName toolInput).
  split; [reflexivity|]. split.
  { unfold tool_executor. rewrite Hlast. simpl. rewrite Hm. reflexivity. }
  unfold observe. split; [|split; [|split]].
  - intros Hnone.
    destruct (find_tool (tools state) toolName) as [tool|] eqn:Hfind; [|reflexivity].
    apply find_some in Hfind as [Hin Heq]. apply JS_eqb_eq in Heq.
    now destruct (Hnone tool Hin).
  - intros tool message -> ->. reflexivity.
  - intros tool result -> ->. reflexivity.
  - intros state' Hexec. split; [reflexivity|].
    intros fuel. simpl. rewrite Hexec.
    destruct (graph_run fuel node_response_generator state'). reflexivity.
Qed.


(** C7. The step counter starts at 0, no transition decreases it, and every
    reachable state has [0 <= step <= 10]. *)
Theorem step_counter_bounded (query : jsstring) :
  current_step (initial_state query) = 0%Z
  /\ (forall c, reachable (initial_state query) c ->
                (0 <= current_step (snd c) <= 10)%Z)
  /\ (forall c c', reachable (initial_state query) c -> step c c' ->
                   (current_step (snd c) <= current_step (snd c'))%Z).
Proof.
  split; [reflexivity|].
  assert (Hinv : forall c, reachable (initial_state query) c ->
                   (0 <= current_step (snd c) <= 10)%Z
                   /\ (fst c <> None -> (current_step (snd c) < 10)%Z)).
  { intros c Hc. induction Hc as [|c c' Hc IH Hstep].
    - simpl. split; [lia|]. intros _. lia.
    - destruct Hstep as [n state state' Hact]. simpl in *.
      destruct IH as [Hb Hlt]. specialize (Hlt ltac:(discriminate)).
      destruct (node_action_step n state Hact) as [Heq|[-> Heq]].
      + rewrite Heq. split; [lia|]. intros _. lia.
      + split; [lia|]. simpl. unfold route.
        destruct (truthy (final_answer state')); [intros Hn; now destruct Hn|].
        destruct (10 <=? current_step state')%Z eqn:Hle; [intros Hn; now destruct Hn|].
        intros _. apply Z.leb_gt in Hle. exact Hle. }
  split.
  - intros c Hc. apply (Hinv c Hc).
  - intros c c' _ Hstep. destruct Hstep as [n state state' Hact]. simpl.
    destruct (node_action_step n state Hact) as [Heq|[_ Heq]]; lia.
Qed.

End Loop.

(* ===================================================================== *)
(** * How a run ends *)
(* ===================================================================== *)

Section Termination.
Context {E : Env}.







End Termination.

(* ===================================================================== *)
(** * The patterns of the program *)
(* ===================================================================== *)

Section Patterns.

Ltac length_simpl :=
  repeat (rewrite length_app || rewrite length_cons);
  change (List.length (str "Action:")) with 7;
  cbn [List.length];
  lia.

Lemma exec_from_here (r : regex) (pos : nat) (s : jsstring) (m : list jsstring) :
  match_at r pos s = Some m -> exec_from r pos s = Some m.
Proof. intros H. destruct s; simpl; now rewrite H. Qed.

Lemma firstn_exact (A : Type) (n : nat) (a b : list A) :
  n = List.length a -> firstn n (a ++ b) = a.
Proof.
  intros ->. rewrite firstn_app, Nat.sub_diag, firstn_all. simpl. apply app_nil_r.
Qed.

Lemma skipn_exact (A : Type) (n : nat) (a b : list A) :
  n = List.length a -> skipn n (a ++ b) = b.
Proof.
  intros ->. rewrite skipn_app, Nat.sub_diag, skipn_all. reflexivity.
Qed.

(** Skipping characters of a class does not move the first character outside
    of it. *)
Lemma dropWhile_skipn (cls : code_unit -> bool) :
  forall i s, forallb cls (firstn i s) = true ->
  dropWhile cls (skipn i s) = dropWhile cls s.
Proof.
  induction i as [|i IH]; intros s H; [reflexivity|].
  destruct s as [|c s]; [reflexivity|].
  simpl in H. apply andb_prop in H as [Hc H]. simpl. rewrite Hc. now apply IH.
Qed.

Lemma is_space_not_lbracket (c : code_unit) : is_space c = true -> not_lbracket c = true.
Proof.
  unfold not_lbracket. destruct (N.eqb_spec c 91) as [->|]; [discriminate|reflexivity].
Qed.

Lemma forallb_space_not_lbracket (s : jsstring) :
  forallb is_space s = true -> forallb not_lbracket s = true.
Proof.
  induction s as [|c s IH]; simpl; [reflexivity|].
  intros H. apply andb_prop in H as [Hc H].
  now rewrite (is_space_not_lbracket _ Hc), IH.
Qed.

(** *** The pattern of the Calculator *)

Lemma exec_from_bos_later (r : regex) :
  forall s pos, exec_from (Cat Bos r) (S pos) s = None.
Proof. induction s as [|c s IH]; intros pos; simpl; [reflexivity|apply IH]. Qed.

(** [test] holds exactly of the non-empty texts made of the allowed
    characters. *)
Lemma calculator_test (input : jsstring) :
  test calculatorRe input =
    match input with
    | [] => false
    | _ :: _ => forallb calculator_class input
    end.
Proof.
  unfold test, calculatorRe.
  destruct input as [|c s]; [reflexivity|].
  simpl exec_from. rewrite exec_from_bos_later.
  unfold match_at. cbn [rmatch Nat.eqb forallb].
  destruct (calculator_class c); [|reflexivity]. cbn [andb].
  destruct (forallb calculator_class s) eqn:Hall.
  - pose proof (@greedy_longest (list jsstring) calculator_class) as Hg.
    erewrite <- (app_nil_r s) at 1.
    erewrite Hg; [reflexivity|exact Hall|discriminate|reflexivity].
  - rewrite greedy_none; [reflexivity|].
    intros i Hi Hfirst.
    destruct (skipn i s) as [|d t] eqn:Hskip; [|reflexivity].
    exfalso. rewrite <- (firstn_skipn i s), Hskip, app_nil_r in Hall. congruence.
Qed.

(** *** The pattern of the action *)

Lemma str_lbracket : str "[" = [91%N].
Proof. reflexivity. Qed.
Lemma str_rbracket : str "]" = [93%N].
Proof. reflexivity. Qed.

(** No name, or no argument in the first pair of brackets: no match. *)
Lemma directive_fails (R : Type) (u : jsstring) (pos : nat) (caps : list jsstring)
      (k : cont R) :
  Arith.starts_with 91%N u = true \/ empty_argument u = true ->
  rmatch directive pos u caps k = None.
Proof.
  intros H. unfold directive. cbn [rmatch].
  destruct u as [|c u]; [reflexivity|].
  destruct (not_lbracket c) eqn:Hc; [|reflexivity].
  destruct H as [H|H].
  { unfold Arith.starts_with in H. apply N.eqb_eq in H. subst c. discriminate. }
  unfold empty_argument in H. simpl in H. rewrite Hc in H.
  apply greedy_none. intros j Hj Hall.
  rewrite <- (dropWhile_skipn not_lbracket j u Hall) in H.
  rewrite str_lbracket.
  destruct (skipn j u) as [|d t]; [reflexivity|].
  cbn [strip_prefix]. destruct (N.eqb_spec 91 d) as [<-|]; [|reflexivity].
  simpl in H. destruct t as [|e t]; [discriminate|].
  destruct (N.eqb_spec e 93) as [->|Hne].
  - reflexivity.
  - exfalso. destruct e as [|p]; try discriminate.
    repeat (destruct p as [p|p|]; try discriminate); now apply Hne.
Qed.

Lemma action_fails_after (R : Type) (rest : jsstring) (pos : nat)
      (caps : list jsstring) (k : cont R) :
  bracket_at_once rest || empty_argument rest = true ->
  rmatch (Cat (Star is_space) directive) pos rest caps k = None.
Proof.
  intros H. cbn [rmatch]. apply greedy_none. intros i Hi Hall.
  apply directive_fails.
  apply orb_prop in H as [H|H].
  - left. unfold bracket_at_once, Arith.starts_with in H.
    destruct rest as [|c rest]; [discriminate|].
    apply N.eqb_eq in H. subst c.
    destruct i as [|i]; [reflexivity|]. simpl in Hall. discriminate.
  - right. unfold empty_argument in *.
    rewrite (dropWhile_skipn not_lbracket i rest); [exact H|].
    now apply forallb_space_not_lbracket.
Qed.

Lemma rests_after_skipn (pat : jsstring) :
  forall i s rest, strip_prefix pat (skipn i s) = Some rest -> In rest (rests_after pat s).
Proof.
  induction i as [|i IH]; intros s rest H.
  - simpl in H. destruct s; simpl; rewrite H; simpl; auto.
  - destruct s as [|c s].
    + simpl in *. rewrite H. simpl. auto.
    + simpl in H. simpl. apply in_or_app. right. now apply IH.
Qed.

Lemma actionRe_unfold (R : Type) (pos : nat) (s : jsstring) (caps : list jsstring)
      (k : cont R) :
  rmatch actionRe pos s caps k =
    match strip_prefix (str "Action:") s with
    | Some rest =>
        rmatch (Cat (Star is_space) directive) (pos + List.length (str "Action:")) rest caps k
    | None => None
    end.
Proof. reflexivity. Qed.

(** Every [Action:] of the text is followed by a bracket at once or by an
    empty pair of brackets: the pattern matches nowhere. *)
Lemma action_no_match (s : jsstring) :
  forallb (fun rest => bracket_at_once rest || empty_argument rest)
          (rests_after (str "Action:") s) = true ->
  String_match s actionRe = None.
Proof.
  intros H. unfold String_match. apply exec_from_none. intros i Hi.
  unfold match_at. rewrite actionRe_unfold.
  destruct (strip_prefix (str "Action:") (skipn i s)) as [rest|] eqn:Hp; [|reflexivity].
  apply action_fails_after.
  apply rests_after_skipn in Hp.
  rewrite forallb_forall in H. now apply H.
Qed.

(** A well-formed directive matches where it stands. *)
Lemma action_matches_here (pos : nat) (ws toolName toolInput post : jsstring) :
  forallb is_space ws = true ->
  (exists c n, toolName = c :: n /\ is_space c = false) ->
  forallb not_lbracket toolName = true ->
  toolInput <> [] ->
  forallb not_rbracket toolInput = true ->
  match_at actionRe pos
    (str "Action:" ++ ws ++ toolName ++ [91%N] ++ toolInput ++ [93%N] ++ post)
  = Some [str "Action:" ++ ws ++ toolName ++ [91%N] ++ toolInput ++ [93%N];
          toolName; toolInput].
Proof.
  intros Hws (c & n & -> & Hc) Hname Hinput Harg.
  destruct toolInput as [|d a]; [congruence|]. clear Hinput.
  simpl in Hname, Harg.
  apply andb_prop in Hname as [Hc' Hn]. apply andb_prop in Harg as [Hd Ha].
  unfold match_at. rewrite actionRe_unfold, strip_prefix_app.
  cbn [rmatch].
  apply greedy_longest; [exact Hws| |].
  { intros x t Hx. simpl in Hx. injection Hx as <- _. exact Hc. }
  unfold directive. cbn [rmatch app]. rewrite Hc'.
  apply greedy_longest; [exact Hn| |].
  { intros x t Hx. simpl in Hx. injection Hx as <- _. reflexivity. }
  rewrite str_lbracket. cbn [strip_prefix app]. rewrite N.eqb_refl.
  rewrite Hd.
  apply greedy_longest; [exact Ha| |].
  { intros x t Hx. simpl in Hx. injection Hx as <- _. reflexivity. }
  rewrite str_rbracket. cbn [strip_prefix app]. rewrite N.eqb_refl.
  change (List.length (str "Action:")) with 7.
  f_equal. f_equal; [|f_equal; [|f_equal]].
  - replace (str "Action:" ++ ws ++ c :: n ++ 91%N :: d :: a ++ 93%N :: post)
      with ((str "Action:" ++ ws ++ c :: n ++ 91%N :: d :: a ++ [93%N]) ++ post).
    + apply firstn_exact. length_simpl.
    + repeat (rewrite <- app_assoc; cbn [app]). reflexivity.
  - change (c :: n ++ 91%N :: d :: a ++ 93%N :: post)
      with ((c :: n) ++ 91%N :: d :: a ++ 93%N :: post).
    apply firstn_exact. length_simpl.
  - change (d :: a ++ 93%N :: post) with ((d :: a) ++ 93%N :: post).
    apply firstn_exact. length_simpl.
Qed.

(** *** The pattern of the answer *)

(** A match of the answer pattern runs to the end of the text, and the text
    it captures holds no line terminator. *)
Lemma answer_match_at_shape (pos : nat) (s : jsstring) (m : list jsstring) :
  match_at answerRe pos s = Some m ->
  exists ws X,
    s = str "Answer:" ++ ws ++ X
    /\ forallb is_space ws = true /\ forallb dot X = true /\ m = [s; X].
Proof.
  unfold match_at, answerRe. cbn [rmatch].
  destruct (strip_prefix (str "Answer:") s) as [rest|] eqn:Hp; [|discriminate].
  apply strip_prefix_inv in Hp. intros H.
  apply greedy_some in H as (i & Hi & Hws & H).
  apply greedy_some in H as (j & Hj & Hdot & H).
  destruct (skipn j (skipn i rest)) as [|c t] eqn:Hend; [|discriminate].
  assert (HX : firstn j (skipn i rest) = skipn i rest).
  { rewrite <- (firstn_skipn j (skipn i rest)) at 2. rewrite Hend. now rewrite app_nil_r. }
  assert (Hlen : List.length (skipn i rest) <= j).
  { rewrite <- HX at 1. rewrite length_firstn. lia. }
  exists (firstn i rest), (skipn i rest).
  rewrite firstn_skipn. split; [exact Hp|]. split; [exact Hws|].
  split; [now rewrite <- HX|].
  injection H as <-. cbn [app]. f_equal; [|f_equal].
  - apply firstn_all2. rewrite Hp, length_app.
    rewrite <- (firstn_skipn i rest) at 1. rewrite length_app, length_firstn.
    change (List.length (str "Answer:")) with 7. lia.
  - replace (pos + 7 + i + j - (pos + 7 + i)) with j by lia.
    exact HX.
Qed.

Lemma answer_match_shape (s : jsstring) (m : list jsstring) :
  String_match s answerRe = Some m ->
  exists pre ws X,
    s = pre ++ str "Answer:" ++ ws ++ X
    /\ forallb is_space ws = true /\ forallb dot X = true
    /\ m = [str "Answer:" ++ ws ++ X; X].
Proof.
  unfold String_match. intros H.
  apply exec_from_some in H as (i & _ & H).
  apply answer_match_at_shape in H as (ws & X & Hs & Hws & Hdot & ->).
  exists (firstn i s), ws, X.
  rewrite <- Hs, firstn_skipn. repeat split; auto.
Qed.

End Patterns.

(* ===================================================================== *)
(** * The Calculator and the action parser *)
(* ===================================================================== *)

Section Tools.
Context {E : Env}.

Lemma calculator_class_spec (c : code_unit) :
  calculator_class c =
    is_digit c || existsb (N.eqb c) (str ".+-*/()") || is_space c.
Proof.
  unfold calculator_class. change (str ".+-*/()") with [46; 43; 45; 42; 47; 40; 41]%N.
  cbn [existsb]. rewrite orb_false_r.
  repeat rewrite <- orb_assoc. reflexivity.
Qed.

(** C4. An input with a character that is no digit, none of [. + - * / ( )]
    and no white space gets the text [Invalid expression], and no body is
    handed to the evaluator: the list of evaluator calls is empty. *)
Theorem calculator_rejects_invalid (input : jsstring) :
  (exists c, In c input /\ is_digit c = false
             /\ existsb (N.eqb c) (str ".+-*/()") = false /\ is_space c = false) ->
  Calculator_run input = (str "Invalid expression", [])
  /\ run Calculator input = Normal (str "Invalid expression").
Proof.
  intros (c & Hin & Hd & Hp & Hs).
  assert (Htest : test calculatorRe input = false).
  { rewrite calculator_test. destruct input as [|x input]; [reflexivity|].
    destruct (forallb calculator_class (x :: input)) eqn:Hall; [|reflexivity].
    rewrite forallb_forall in Hall. specialize (Hall c Hin).
    rewrite calculator_class_spec, Hd, Hp, Hs in Hall. discriminate. }
  assert (Hrun : Calculator_run input = (str "Invalid expression", [])).
  { unfold Calculator_run. rewrite Htest. reflexivity. }
  split; [exact Hrun|]. simpl. now rewrite Hrun.
Qed.

(** C2, as the code has it.  On a validated input the result is [Error: ]
    and the message when the evaluator throws, and the text of the value
    when it returns one; a division by zero does not throw: in an
    environment that agrees with the arithmetic of the language, [10/0]
    gives the text [Infinity]. *)
Theorem calculator_error_text :
  (forall input, input <> [] -> forallb calculator_class input = true ->
     let body := str "return (" ++ input ++ str ")" in
     (forall message, Function_call body = Throw message ->
                      Calculator_run input = (str "Error: " ++ message, [body]))
     /\ (forall value, Function_call body = Normal value ->
                       Calculator_run input = (String value, [body])))
  /\ (conforms E ->
      Calculator_run (str "10/0") = (str "Infinity", [str "return (10/0)"])).
Proof.
  assert (Hvalid : forall input, input <> [] -> forallb calculator_class input = true ->
                     test calculatorRe input = true).
  { intros input Hne Hall. rewrite calculator_test.
    destruct input; [congruence|exact Hall]. }
  split.
  - intros input Hne Hall body. unfold Calculator_run.
    rewrite (Hvalid input Hne Hall). cbn [negb]. fold body.
    split; intros x Hx; rewrite Hx; reflexivity.
  - intros Hconf. unfold Calculator_run.
    rewrite Hvalid; [|discriminate|reflexivity]. cbn [negb].
    change (str "return (" ++ str "10/0" ++ str ")") with (str "return (10/0)").
    rewrite (Hconf (str "return (10/0)") Number.Infinity); reflexivity.
Qed.

(** C9. Only the first occurrence of the action pattern is honoured: the
    one observation appended is that of the leftmost match; in particular,
    when a directive [Action:], white space, name, [[], argument, []] stands
    where no earlier attempt matches, the observation is that of its name
    and argument, whatever follows it in the message.  When the pattern
    matches nowhere, tool dispatch returns the state as it is. *)
Theorem first_action_only (state : AgentState) (last : ChatMessage) :
  lastMessage state = Normal last ->
  (forall n whole toolName toolInput,
     n <= List.length (content last) ->
     (forall i, i < n -> match_at actionRe i (skipn i (content last)) = None) ->
     match_at actionRe n (skipn n (content last)) = Some [whole; toolName; toolInput] ->
     tool_executor state =
       Normal (with_messages state
                 (messages state
                  ++ [{| role := system;
                         content := str "Observation: "
                                    ++ observe (tools state) toolName toolInput |}])))
  /\ (forall pre ws toolName toolInput post,
     content last = pre ++ str "Action:" ++ ws ++ toolName ++ [91%N]
                        ++ toolInput ++ [93%N] ++ post ->
     (forall i, i < List.length pre ->
                match_at actionRe i (skipn i (content last)) = None) ->
     forallb is_space ws = true ->
     (exists c n, toolName = c :: n /\ is_space c = false) ->
     forallb not_lbracket toolName = true ->
     toolInput <> [] ->
     forallb not_rbracket toolInput = true ->
     tool_executor state =
       Normal (with_messages state
                 (messages state
                  ++ [{| role := system;
                         content := str "Observation: "
                                    ++ observe (tools state) toolName toolInput |}])))
  /\ ((forall i, i <= List.length (content last) ->
                 match_at actionRe i (skipn i (content last)) = None) ->
      tool_executor state = Normal state).
Proof.
  intros Hlast. split; [|split].
  - intros n whole toolName toolInput Hn Hfirst Hhere.
    unfold tool_executor. rewrite Hlast. cbn [bind]. unfold String_match.
    rewrite (@exec_from_skip actionRe n (content last) 0 Hn Hfirst).
    change (0 + n) with n.
    rewrite (exec_from_here _ _ _ Hhere). reflexivity.
  - intros pre ws toolName toolInput post Hcontent Hfirst Hws Hname Hnb Hinput Harg.
    assert (Hm : String_match (content last) actionRe =
                 Some [str "Action:" ++ ws ++ toolName ++ [91%N] ++ toolInput ++ [93%N];
                       toolName; toolInput]).
    { unfold String_match.
      rewrite (@exec_from_skip actionRe (List.length pre) (content last) 0).
      - rewrite Hcontent at 1. rewrite skipn_exact by reflexivity.
        apply exec_from_here. now apply action_matches_here.
      - rewrite Hcontent, length_app. lia.
      - exact Hfirst. }
    unfold tool_executor. rewrite Hlast. cbn [bind]. rewrite Hm. reflexivity.
  - intros Hnone. unfold tool_executor. rewrite Hlast. cbn [bind].
    unfold String_match. rewrite exec_from_none; [reflexivity|exact Hnone].
Qed.

(** C10, as the code has it.  When every [Action:] of the message is
    followed at once by the opening bracket (no name, as in [Action:[2+2]])
    or has nothing between its first brackets (no argument, as in
    [Action: Calculator[]]), tool dispatch appends no observation and
    returns the state as it is. *)
Theorem empty_directive_ignored (state : AgentState) (last : ChatMessage) :
  lastMessage state = Normal last ->
  forallb (fun rest => bracket_at_once rest || empty_argument rest)
          (rests_after (str "Action:") (content last)) = true ->
  tool_executor state = Normal state.
Proof.
  intros Hlast Hshape. unfold tool_executor. rewrite Hlast. cbn [bind].
  now rewrite (action_no_match _ Hshape).
Qed.

End Tools.

(* ===================================================================== *)
(** * Concrete runs *)
(* ===================================================================== *)

Lemma scripted_env_conforms (llm : list ChatMessage -> Completion jsstring) :
  conforms (scripted_env llm).
Proof. intros body x H. simpl. now rewrite H. Qed.

(** The Calculator on the inputs of the specification. *)
Example calculator_precedence :
  Calculator_run (E := env_weather) (str "2+2*3") = (str "8", [str "return (2+2*3)"]).
Proof. vm_compute. reflexivity. Qed.

Example calculator_injection :
  Calculator_run (E := env_weather) (str "2+2; import os") = (str "Invalid expression", []).
Proof. vm_compute. reflexivity. Qed.

Example calculator_fraction :
  Calculator_run (E := env_weather) (str "0.1+0.2")
  = (str "0.30000000000000004", [str "return (0.1+0.2)"]).
Proof. vm_compute. reflexivity. Qed.

(** Scenario A: the Calculator is asked, its result observed, the answer
    given in the second cycle. *)
Example scenario_A :
  let run := invoke (E := env_scenario_A) 30 (initial_state (E := env_scenario_A) (str "What is 2+2?")) in
  fst run = [node_parse_input; node_tool_executor; node_response_generator;
             node_parse_input; node_tool_executor; node_response_generator]
  /\ match snd run with
     | Finished result =>
         responseData result = str "4"
         /\ List.map content (skipn 2 (messages result))
            = [str "Thought: I should add.
Action: Calculator[2+2]"; str "Observation: 4"; str "Thought: done.
Answer: 4"]
     | _ => False
     end.
Proof. vm_compute. repeat split; reflexivity. Qed.

(** C2, the counterexample.  [10/0] is a validated input and a division by
    zero; the evaluator returns [Infinity] and the result is the text of that
    number, which does not begin with [Error: ]. *)
Lemma division_by_zero_is_no_error :
  test calculatorRe (str "10/0") = true
  /\ Arith.run_body (str "return (10/0)") = Some Number.Infinity
  /\ Calculator_run (E := env_weather) (str "10/0")
     = (Number.toString Number.Infinity, [str "return (10/0)"])
  /\ fst (Calculator_run (E := env_weather) (str "10/0")) = str "Infinity"
  /\ strip_prefix (str "Error: ") (fst (Calculator_run (E := env_weather) (str "10/0"))) = None.
Proof. vm_compute. repeat split; reflexivity. Qed.

Lemma calculator_error_text_witness :
  conforms env_weather
  /\ Calculator_run (E := env_weather) (str "10/0") = (str "Infinity", [str "return (10/0)"])
  /\ (str "2+2" <> []
      /\ forallb calculator_class (str "2+2") = true
      /\ Function_call (Env := env_weather) (str "return (" ++ str "2+2" ++ str ")")
         = Normal (JSNumber (Number.of_Z 4))
      /\ Calculator_run (E := env_weather) (str "2+2")
         = (str "4", [str "return (" ++ str "2+2" ++ str ")"])).
Proof.
  pose proof (calculator_error_text (E := env_weather)) as [Hvalid Hzero].
  assert (Hne : str "2+2" <> []) by discriminate.
  assert (Hall : forallb calculator_class (str "2+2") = true) by reflexivity.
  assert (Hcall : Function_call (Env := env_weather) (str "return (" ++ str "2+2" ++ str ")")
                  = Normal (JSNumber (Number.of_Z 4))) by reflexivity.
  split; [apply scripted_env_conforms|].
  split; [exact (Hzero (scripted_env_conforms _))|].
  split; [exact Hne|]. split; [exact Hall|]. split; [exact Hcall|].
  exact (proj2 (Hvalid (str "2+2") Hne Hall) _ Hcall).
Defined.

Lemma calculator_rejects_invalid_witness :
  (exists c, In c (str "2+2; import os") /\ is_digit c = false
             /\ existsb (N.eqb c) (str ".+-*/()") = false /\ is_space c = false)
  /\ Calculator_run (E := env_weather) (str "2+2; import os") = (str "Invalid expression", [])
  /\ run (Calculator (E := env_weather)) (str "2+2; import os")
     = Normal (str "Invalid expression").
Proof.
  assert (H : exists c, In c (str "2+2; import os") /\ is_digit c = false
              /\ existsb (N.eqb c) (str ".+-*/()") = false /\ is_space c = false).
  { exists 59%N. repeat split; try reflexivity. vm_compute. tauto. }
  split; [exact H|].
  exact (calculator_rejects_invalid (E := env_weather) (str "2+2; import os") H).
Defined.

Lemma tool_dispatch_observation_witness :
  let state := with_messages (initial_state (E := env_weather) (str "Weather in NYC?"))
                 (messages (initial_state (E := env_weather) (str "Weather in NYC?"))
                  ++ [{| role := assistant; content := str "Action: Weather [NYC]" |}]) in
  let last := {| role := assistant; content := str "Action: Weather [NYC]" |} in
  lastMessage state = Normal last
  /\ String_match (content last) actionRe
     = Some [str "Action: Weather [NYC]"; str "Weather "; str "NYC"]
  /\ tool_executor (E := env_weather) state
     = Normal (with_messages state
                 (messages state
                  ++ [{| role := system;
                         content := str "Observation: " ++ str "Tool " ++ [dquote]
                                    ++ str "Weather " ++ [dquote] ++ str " not found" |}])).
Proof.
  intros state last.
  assert (Hlast : lastMessage state = Normal last) by reflexivity.
  assert (Hm : String_match (content last) actionRe
               = Some [str "Action: Weather [NYC]"; str "Weather "; str "NYC"])
    by reflexivity.
  split; [exact Hlast|]. split; [exact Hm|].
  destruct (tool_dispatch_observation (E := env_weather) state Hlast Hm)
    as (whole & toolName & toolInput & text & Heq & Hexec & Hnone & _).
  injection Heq as <- <- <-.
  rewrite Hexec, Hnone; [reflexivity|].
  intros t [<-|[]]. discriminate.
Defined.

Lemma transcript_append_only_witness :
  let state := initial_state (E := env_weather) (str "Weather in NYC?") in
  let s1 := with_messages state
              (messages state
               ++ [{| role := assistant; content := str "Action: Weather[NYC]" |}]) in
  let s2 := with_messages s1
              (messages s1
               ++ [{| role := system;
                      content := str "Observation: "
                                 ++ observe (E := env_weather) (tools s1)
                                      (str "Weather") (str "NYC") |}]) in
  let state' := with_current_step s2 1 in
  cycle (E := env_weather) state = Normal state'
  /\ List.length (messages state') = List.length (messages state) + 2
  /\ firstn (List.length (messages state)) (messages state') = messages state.
Proof.
  intros state s1 s2 state'.
  assert (H : cycle (E := env_weather) state = Normal state') by reflexivity.
  split; [exact H|].
  destruct (transcript_append_only (E := env_weather) state H)
    as (reply & obs & _ & _ & _ & Hfirst & _).
  split; [reflexivity|exact Hfirst].
Defined.


Lemma step_counter_bounded_witness :
  let state := initial_state (E := env_weather) (str "Weather in NYC?") in
  let s1 := with_messages state
              (messages state
               ++ [{| role := assistant; content := str "Action: Weather[NYC]" |}]) in
  let s2 := with_messages s1
              (messages s1
               ++ [{| role := system;
                      content := str "Observation: "
                                 ++ observe (E := env_weather) (tools s1)
                                      (str "Weather") (str "NYC") |}]) in
  let s3 := with_current_step s2 1 in
  reachable (E := env_weather) state (Some node_parse_input, s3)
  /\ step (E := env_weather) (Some node_response_generator, s2) (Some node_parse_input, s3)
  /\ (0 <= current_step s3 <= 10)%Z
  /\ (current_step s2 <= current_step s3)%Z.
Proof.
  intros state s1 s2 s3.
  assert (H1 : step (E := env_weather) (Some node_parse_input, state)
                 (Some node_tool_executor, s1)).
  { exact (step_node (E := env_weather) node_parse_input state (state' := s1) eq_refl). }
  assert (H2 : step (E := env_weather) (Some node_tool_executor, s1)
                 (Some node_response_generator, s2)).
  { exact (step_node (E := env_weather) node_tool_executor s1 (state' := s2) eq_refl). }
  assert (H3 : step (E := env_weather) (Some node_response_generator, s2)
                 (Some node_parse_input, s3)).
  { exact (step_node (E := env_weather) node_response_generator s2 (state' := s3) eq_refl). }
  assert (Hr2 : reachable (E := env_weather) state (Some node_response_generator, s2)).
  { eapply reach_step; [|exact H2]. eapply reach_step; [|exact H1]. apply reach_start. }
  assert (Hr3 : reachable (E := env_weather) state (Some node_parse_input, s3)).
  { eapply reach_step; [exact Hr2|exact H3]. }
  destruct (step_counter_bounded (E := env_weather) (str "Weather in NYC?"))
    as (_ & Hbound & Hmono).
  split; [exact Hr3|]. split; [exact H3|].
  split; [exact (Hbound _ Hr3)|exact (Hmono _ _ Hr2 H3)].
Defined.




(** An answer that is not on the last line is no match of the pattern. *)
Example answer_before_last_line :
  String_match (str "Answer: 4
Thought: done") answerRe = None
  /\ String_match (str "Answer: 4
") answerRe = None.
Proof. vm_compute. split; reflexivity. Qed.

(** C10, the counterexample.  In [Action: [2+2]] the space after the colon
    is taken for the name: the directive is dispatched and an observation
    appended. *)
Lemma blank_name_is_dispatched :
  let state := with_messages (initial_state (E := env_weather) (str "What is 2+2?"))
                 (messages (initial_state (E := env_weather) (str "What is 2+2?"))
                  ++ [{| role := assistant; content := str "Action: [2+2]" |}]) in
  String_match (str "Action: [2+2]") actionRe
  = Some [str "Action: [2+2]"; str " "; str "2+2"]
  /\ tool_executor (E := env_weather) state <> Normal state
  /\ match tool_executor (E := env_weather) state with
     | Normal state' =>
         List.map content (skipn 2 (messages state'))
         = [str "Action: [2+2]";
            str "Observation: Tool " ++ [dquote] ++ str " " ++ [dquote] ++ str " not found"]
     | Throw _ => False
     end.
Proof.
  intros state. split; [reflexivity|]. split; [|reflexivity].
  intros H.
  assert (Hlen : match tool_executor (E := env_weather) state with
                 | Normal state' => List.length (messages state')
                 | Throw _ => 0
                 end = 4) by reflexivity.
  rewrite H in Hlen. discriminate.
Qed.

Lemma empty_directive_ignored_witness :
  let state := with_messages (initial_state (E := env_weather) (str "What is 2+2?"))
                 (messages (initial_state (E := env_weather) (str "What is 2+2?"))
                  ++ [{| role := assistant;
                         content := str "Action: Calculator[] or Action:[2+2]" |}]) in
  let last := {| role := assistant; content := str "Action: Calculator[] or Action:[2+2]" |} in
  lastMessage state = Normal last
  /\ forallb (fun rest => bracket_at_once rest || empty_argument rest)
             (rests_after (str "Action:") (content last)) = true
  /\ rests_after (str "Action:") (content last)
     = [str " Calculator[] or Action:[2+2]"; str "[2+2]"]
  /\ tool_executor (E := env_weather) state = Normal state.
Proof.
  intros state last.
  assert (Hlast : lastMessage state = Normal last) by reflexivity.
  assert (Hshape : forallb (fun rest => bracket_at_once rest || empty_argument rest)
                     (rests_after (str "Action:") (content last)) = true) by reflexivity.
  split; [exact Hlast|]. split; [exact Hshape|]. split; [reflexivity|].
  exact (empty_directive_ignored (E := env_weather) state Hlast Hshape).
Defined.

Lemma first_action_only_witness :
  let text := str "Thought: add.
Action: Calculator[2+2] then Action: Weather[NYC]" in
  let state := with_messages (initial_state (E := env_weather) (str "What is 2+2?"))
                 (messages (initial_state (E := env_weather) (str "What is 2+2?"))
                  ++ [{| role := assistant; content := text |}]) in
  let last := {| role := assistant; content := text |} in
  let pre := str "Thought: add.
" in
  lastMessage state = Normal last
  /\ content last = pre ++ str "Action:" ++ str " " ++ str "Calculator" ++ [91%N]
                        ++ str "2+2" ++ [93%N] ++ str " then Action: Weather[NYC]"
  /\ (forall i, i < List.length pre ->
                match_at actionRe i (skipn i (content last)) = None)
  /\ observe (E := env_weather) (tools state) (str "Calculator") (str "2+2") = str "4"
  /\ tool_executor (E := env_weather) state =
       Normal (with_messages state
                 (messages state
                  ++ [{| role := system;
                         content := str "Observation: "
                                    ++ observe (E := env_weather) (tools state)
                                         (str "Calculator") (str "2+2") |}])).
Proof.
  intros text state last pre.
  assert (Hlast : lastMessage state = Normal last) by reflexivity.
  assert (Hcontent :
            content last = pre ++ str "Action:" ++ str " " ++ str "Calculator" ++ [91%N]
                               ++ str "2+2" ++ [93%N] ++ str " then Action: Weather[NYC]")
    by reflexivity.
  assert (Hfirst : forall i, i < List.length pre ->
                     match_at actionRe i (skipn i (content last)) = None).
  { intros i Hi.
    do 14 (destruct i as [|i]; [reflexivity|]).
    exfalso. change (List.length pre) with 14 in Hi. lia. }
  split; [exact Hlast|]. split; [exact Hcontent|]. split; [exact Hfirst|].
  split; [vm_compute; reflexivity|].
  refine (proj1 (proj2 (first_action_only (E := env_weather) state Hlast))
                pre (str " ") (str "Calculator") (str "2+2")
                (str " then Action: Weather[NYC]") Hcontent Hfirst _ _ _ _ _).
  - reflexivity.
  - exists 67%N, (str "alculator"). split; reflexivity.
  - reflexivity.
  - discriminate.
  - reflexivity.
Defined.

(* ===================================================================== *)
(** * Further properties: trimming and tool dispatch *)
(* ===================================================================== *)

Section Trimming.

Lemma dropWhile_app (p : code_unit -> bool) (s t : jsstring) :
  dropWhile p (s ++ t) = if forallb p s then dropWhile p t else dropWhile p s ++ t.
Proof.
  induction s as [|c s IH]; simpl; [reflexivity|].
  destruct (p c); simpl; [exact IH|reflexivity].
Qed.

Lemma dropWhile_all (p : code_unit -> bool) (s : jsstring) :
  forallb p s = true -> dropWhile p s = [].
Proof.
  induction s as [|c s IH]; simpl; [reflexivity|].
  destruct (p c); simpl; [exact IH|discriminate].
Qed.

Lemma dropWhile_fixed (p : code_unit -> bool) (s : jsstring) :
  dropWhile p (dropWhile p s) = dropWhile p s.
Proof.
  induction s as [|c s IH]; simpl; [reflexivity|].
  destruct (p c) eqn:Hc; [exact IH|]. simpl. now rewrite Hc.
Qed.

Lemma dropWhile_In (p : code_unit -> bool) (s : jsstring) (x : code_unit) :
  In x (dropWhile p s) -> In x s.
Proof.
  induction s as [|c s IH]; simpl; [tauto|].
  destruct (p c); [right; now apply IH|simpl; tauto].
Qed.

Lemma forallb_rev_true (p : code_unit -> bool) (s : jsstring) :
  forallb p s = true -> forallb p (rev s) = true.
Proof.
  rewrite !forallb_forall. intros H x Hx. apply H. now apply in_rev.
Qed.

(** White space at the end is dropped. *)
Lemma trimEnd_app_space (s ws : jsstring) :
  forallb is_space ws = true -> trimEnd (s ++ ws) = trimEnd s.
Proof.
  intros H. unfold trimEnd. rewrite rev_app_distr, dropWhile_app.
  now rewrite (forallb_rev_true _ _ H).
Qed.

(** White space around a text does not change what [trim] returns. *)
Lemma trim_surrounded (ws1 s ws2 : jsstring) :
  forallb is_space ws1 = true -> forallb is_space ws2 = true ->
  trim (ws1 ++ s ++ ws2) = trim s.
Proof.
  intros H1 H2. unfold trim, trimStart.
  rewrite dropWhile_app, H1, dropWhile_app.
  destruct (forallb is_space s) eqn:Hs.
  - now rewrite (dropWhile_all _ _ H2), (dropWhile_all _ _ Hs).
  - now apply trimEnd_app_space.
Qed.

Lemma trim_blank (s : jsstring) : forallb is_space s = true -> trim s = [].
Proof.
  intros H. unfold trim, trimStart. now rewrite (dropWhile_all _ _ H).
Qed.

(** Trimming twice is trimming once. *)
Lemma trim_trim (s : jsstring) : trim (trim s) = trim s.
Proof.
  unfold trim, trimStart, trimEnd.
  set (t := dropWhile is_space s).
  assert (Ht : dropWhile is_space t = t) by apply dropWhile_fixed.
  assert (Hu : dropWhile is_space (rev (dropWhile is_space (rev t)))
               = rev (dropWhile is_space (rev t))).
  { destruct t as [|c r]; [reflexivity|].
    simpl in Ht. destruct (is_space c) eqn:Hc.
    - exfalso. assert (Hlen : List.length (dropWhile is_space r) <= List.length r).
      { clear. induction r as [|x r IH]; simpl; [lia|]. destruct (is_space x); simpl; lia. }
      rewrite Ht in Hlen. simpl in Hlen. lia.
    - simpl rev. rewrite dropWhile_app.
      destruct (forallb is_space (rev r)); simpl; rewrite ?Hc.
      + simpl. now rewrite Hc.
      + rewrite rev_app_distr. simpl. now rewrite Hc. }
  rewrite Hu, rev_involutive, dropWhile_fixed. reflexivity.
Qed.

Lemma trim_forallb (p : code_unit -> bool) (s : jsstring) :
  forallb p s = true -> forallb p (trim s) = true.
Proof.
  rewrite !forallb_forall. intros H x Hx. apply H.
  unfold trim, trimEnd, trimStart in Hx.
  apply in_rev in Hx. apply dropWhile_In in Hx. apply in_rev in Hx.
  now apply dropWhile_In in Hx.
Qed.

End Trimming.

Section Dispatch.
Context {E : Env}.

(** The tool is looked up by the trimmed name and run on the trimmed
    argument: white space around either changes neither the tool found nor
    what a found tool is given, so neither the observation. *)
Theorem dispatch_ignores_surrounding_space
        (ts : list Tool) (toolName toolInput ws1 ws2 ws3 ws4 : jsstring) :
  forallb is_space ws1 = true -> forallb is_space ws2 = true ->
  forallb is_space ws3 = true -> forallb is_space ws4 = true ->
  find_tool ts (ws1 ++ toolName ++ ws2) = find_tool ts toolName
  /\ observe ts toolName (ws3 ++ toolInput ++ ws4) = observe ts toolName toolInput
  /\ (find_tool ts toolName <> None ->
      observe ts (ws1 ++ toolName ++ ws2) (ws3 ++ toolInput ++ ws4)
      = observe ts toolName toolInput).
Proof.
  intros H1 H2 H3 H4.
  assert (Hfind : find_tool ts (ws1 ++ toolName ++ ws2) = find_tool ts toolName).
  { unfold find_tool. now rewrite trim_surrounded. }
  split; [exact Hfind|]. split.
  - unfold observe. now rewrite trim_surrounded.
  - intros Hsome. unfold observe. rewrite Hfind, trim_surrounded by assumption.
    destruct (find_tool ts toolName); [reflexivity|congruence].
Qed.

(** An action for the Calculator whose argument is white space only is
    answered [Invalid expression]: the argument is trimmed to the empty
    text, which the Calculator rejects. *)
Theorem blank_argument_is_invalid (ts : list Tool) (toolName toolInput : jsstring) :
  find_tool ts toolName = Some Calculator ->
  forallb is_space toolInput = true ->
  observe ts toolName toolInput = str "Invalid expression".
Proof.
  intros Hfind Hblank. unfold observe. rewrite Hfind, (trim_blank _ Hblank).
  reflexivity.
Qed.

(** The evaluator is called exactly when the input is not empty and made of
    allowed characters only, and then once, on [return (input)]; every other
    input, the empty one among them, gets [Invalid expression]. *)
Theorem calculator_evaluates_iff_valid (input : jsstring) :
  (input <> [] /\ forallb calculator_class input = true
   <-> snd (Calculator_run input) = [str "return (" ++ input ++ str ")"])
  /\ (input = [] \/ forallb calculator_class input = false
      <-> Calculator_run input = (str "Invalid expression", [])).
Proof.
  unfold Calculator_run. cbv zeta. rewrite calculator_test.
  destruct input as [|c s].
  - simpl. split; split; try tauto; try discriminate.
  - destruct (forallb calculator_class (c :: s)) eqn:Hall; cbn [negb].
    + assert (Hcall : snd (match Function_call (str "return (" ++ (c :: s) ++ str ")") with
                           | Normal result => (String result, [str "return (" ++ (c :: s) ++ str ")"])
                           | Throw message =>
                               (str "Error: " ++ message, [str "return (" ++ (c :: s) ++ str ")"])
                           end) = [str "return (" ++ (c :: s) ++ str ")"]).
      { destruct (Function_call _); reflexivity. }
      split; split.
      * intros _. exact Hcall.
      * intros _. split; [discriminate|reflexivity].
      * intros [H|H]; discriminate.
      * intros H. destruct (Function_call _); discriminate H.
    + split; split.
      * intros [_ H]. discriminate.
      * discriminate.
      * reflexivity.
      * intros _. now right.
Qed.

End Dispatch.

(* ===================================================================== *)
(** * Further properties: what the action pattern captures *)
(* ===================================================================== *)

Section ActionShape.

Lemma action_match_at_shape (pos : nat) (s : jsstring) (m : list jsstring) :
  match_at actionRe pos s = Some m ->
  exists ws toolName toolInput post,
    s = str "Action:" ++ ws ++ toolName ++ [91%N] ++ toolInput ++ [93%N] ++ post
    /\ forallb is_space ws = true
    /\ toolName <> [] /\ forallb not_lbracket toolName = true
    /\ toolInput <> [] /\ forallb not_rbracket toolInput = true
    /\ m = [str "Action:" ++ ws ++ toolName ++ [91%N] ++ toolInput ++ [93%N];
            toolName; toolInput].
Proof.
  unfold match_at. rewrite actionRe_unfold.
  destruct (strip_prefix (str "Action:") s) as [rest|] eqn:Hp; [|discriminate].
  apply strip_prefix_inv in Hp. intros H.
  cbn [rmatch] in H. apply greedy_some in H as (i & Hi & Hws & H).
  unfold directive in H. cbn [rmatch] in H.
  destruct (skipn i rest) as [|c u] eqn:Hu; [discriminate|].
  destruct (not_lbracket c) eqn:Hc; [|discriminate].
  apply greedy_some in H as (j & Hj & Hname & H).
  rewrite str_lbracket in H. cbn [strip_prefix] in H.
  destruct (skipn j u) as [|b v] eqn:Hv; [discriminate|].
  destruct (N.eqb_spec 91 b) as [<-|]; [|discriminate].
  destruct v as [|d v']; [discriminate|].
  destruct (not_rbracket d) eqn:Hd; [|discriminate].
  apply greedy_some in H as (l & Hl & Harg & H).
  rewrite str_rbracket in H. cbn [strip_prefix] in H.
  destruct (skipn l v') as [|e post] eqn:Hpost; [discriminate|].
  destruct (N.eqb_spec 93 e) as [<-|]; [|discriminate].
  injection H as <-.
  assert (Erest : rest = firstn i rest ++ c :: firstn j u ++ 91%N :: d :: firstn l v'
                         ++ 93%N :: post).
  { rewrite <- (firstn_skipn i rest) at 1. rewrite Hu. f_equal. f_equal.
    rewrite <- (firstn_skipn j u) at 1. rewrite Hv. f_equal. f_equal. f_equal.
    rewrite <- (firstn_skipn l v') at 1. now rewrite Hpost. }
  exists (firstn i rest), (c :: firstn j u), (d :: firstn l v'), post.
  split; [rewrite Hp; f_equal; exact Erest|].
  split; [exact Hws|]. split; [discriminate|].
  split; [simpl; now rewrite Hc, Hname|]. split; [discriminate|].
  split; [simpl; now rewrite Hd, Harg|].
  assert (Hlen_i : List.length (firstn i rest) = i) by (rewrite length_firstn; lia).
  assert (Hlen_j : List.length (firstn j u) = j) by (rewrite length_firstn; lia).
  assert (Hlen_l : List.length (firstn l v') = l) by (rewrite length_firstn; lia).
  cbn [app]. f_equal; [|f_equal; [|f_equal]].
  - rewrite Hp. rewrite Erest at 1.
    replace (str "Action:" ++ firstn i rest ++ c :: firstn j u ++ 91%N :: d :: firstn l v'
                           ++ 93%N :: post)
      with ((str "Action:" ++ firstn i rest ++ c :: firstn j u ++ 91%N :: d :: firstn l v'
                           ++ [93%N]) ++ post)
      by (repeat (rewrite <- app_assoc; cbn [app]); reflexivity).
    apply firstn_exact.
    change (S (S (pos + 7 + i + j + 1 + l + 1)) - pos
            = List.length (str "Action:" ++ firstn i rest ++ c :: firstn j u
                                ++ 91%N :: d :: firstn l v' ++ [93%N])).
    repeat (rewrite length_app || rewrite length_cons).
    change (List.length (str "Action:")) with 7. cbn [List.length].
    rewrite Hlen_i, Hlen_j, Hlen_l. lia.
  - change (firstn (S (pos + 7 + i + j) - (pos + 7 + i)) (c :: u) = c :: firstn j u).
    replace (S (pos + 7 + i + j) - (pos + 7 + i)) with (S j) by lia. reflexivity.
  - change (firstn (S (pos + 7 + i + j + 1 + l) - (pos + 7 + i + j + 1)) (d :: v')
            = d :: firstn l v').
    replace (S (pos + 7 + i + j + 1 + l) - (pos + 7 + i + j + 1)) with (S l) by lia.
    reflexivity.
Qed.

(** What a match of the action pattern holds: [Action:], white space, a
    name that is not empty and has no [[], the bracket, an argument that is
    not empty and has no []], the bracket.  A tool is never handed a closing
    bracket. *)
Theorem parsed_action_shape (s whole toolName toolInput : jsstring) :
  String_match s actionRe = Some [whole; toolName; toolInput] ->
  toolName <> [] /\ forallb not_lbracket toolName = true
  /\ toolInput <> [] /\ forallb not_rbracket toolInput = true
  /\ forallb not_rbracket (trim toolInput) = true
  /\ exists pre ws post,
       forallb is_space ws = true
       /\ whole = str "Action:" ++ ws ++ toolName ++ [91%N] ++ toolInput ++ [93%N]
       /\ s = pre ++ whole ++ post.
Proof.
  unfold String_match. intros H.
  apply exec_from_some in H as (i & _ & H).
  apply action_match_at_shape in H
    as (ws & n & a & post & Hs & Hws & Hn & Hnb & Ha & Hab & Hm).
  assert (Hw : whole = str "Action:" ++ ws ++ n ++ [91%N] ++ a ++ [93%N]) by congruence.
  assert (Hn' : toolName = n) by congruence.
  assert (Ha' : toolInput = a) by congruence.
  subst toolName toolInput. clear Hm.
  repeat split; auto.
  - now apply trim_forallb.
  - exists (firstn i s), ws, post. split; [exact Hws|]. split; [exact Hw|].
    rewrite Hw. rewrite <- (firstn_skipn i s) at 1. rewrite Hs.
    repeat rewrite <- app_assoc. reflexivity.
Qed.

End ActionShape.

(* ===================================================================== *)
(** * Further properties: whole runs *)
(* ===================================================================== *)

Section RunInvariants.
Context {E : Env}.



(** What a node leaves alone and what it appends. *)
Lemma node_action_frame (n : Node) (state state' : AgentState) :
  node_action n state = Normal state' ->
  tools state' = tools state
  /\ exists rest,
       messages state' = messages state ++ rest
       /\ Forall appended_by_run rest
       /\ (n = node_parse_input -> rest <> []).
Proof.
  destruct n; simpl; intros H.
  - apply parse_input_inv in H as (reply & _ & ->). split; [reflexivity|].
    eexists. split; [reflexivity|]. split; [|discriminate].
    constructor; [now left|constructor].
  - apply tool_executor_inv in H as (last & _ & [[_ ->]|(w & t & i & _ & ->)]).
    + split; [reflexivity|]. exists []. rewrite app_nil_r.
      repeat split; [constructor|discriminate].
    + split; [reflexivity|]. eexists. split; [reflexivity|]. split; [|discriminate].
      constructor; [|constructor]. right. simpl. eauto.
  - apply response_generator_inv in H as (last & _ & [[_ ->]|(w & a & _ & ->)]).
    + split; [reflexivity|]. exists []. rewrite app_nil_r.
      repeat split; [constructor|discriminate].
    + split; [reflexivity|]. exists []. rewrite app_nil_r.
      repeat split; [constructor|discriminate].
Qed.

(** Throughout a run the tools are those of the start, the transcript of the
    start stays in front, and what is appended to it are messages of the
    model and observations in the system role: no user message, no other
    system message. *)
Theorem run_keeps_tools_and_seed (initial : AgentState) (c : config) :
  reachable initial c ->
  tools (snd c) = tools initial
  /\ exists rest,
       messages (snd c) = messages initial ++ rest /\ Forall appended_by_run rest.
Proof.
  intros Hc. induction Hc as [|c c' Hc IH Hstep].
  - simpl. split; [reflexivity|]. exists []. rewrite app_nil_r. split; [reflexivity|constructor].
  - destruct Hstep as [n state state' Hact]. simpl in *.
    destruct IH as (Htools & rest & Hm & Hrest).
    destruct (node_action_frame n state Hact) as (Htools' & rest' & Hm' & Hrest' & _).
    split; [congruence|]. exists (rest ++ rest').
    rewrite Hm', Hm, app_assoc. split; [reflexivity|].
    apply Forall_app. auto.
Qed.







End RunInvariants.

(* ===================================================================== *)
(** * Further properties: the answer and the model call *)
(* ===================================================================== *)

Section AnswerFacts.
Context {E : Env}.

(** An answer the run sets is one line, trimmed: it holds no line terminator
    and trimming it again changes nothing. *)
Theorem final_answer_is_trimmed_line (initial : AgentState) (c : config) (a : jsstring) :
  final_answer initial = None ->
  reachable initial c ->
  final_answer (snd c) = Some a ->
  forallb dot a = true /\ trim a = a.
Proof.
  intros Hnone Hc. revert a. induction Hc as [|c c' Hc IH Hstep]; intros a Ha.
  - simpl in Ha. congruence.
  - destruct Hstep as [n state state' Hact]. simpl in *.
    destruct n; simpl in Hact.
    + apply parse_input_inv in Hact as (reply & _ & ->). now apply IH.
    + apply tool_executor_inv in Hact as (last & _ & [[_ ->]|(w & t & i & _ & ->)]);
        now apply IH.
    + apply response_generator_inv in Hact
        as (last & _ & [[_ ->]|(w & X & Hm & ->)]); [now apply IH|].
      simpl in Ha. injection Ha as <-.
      apply answer_match_shape in Hm as (pre & ws & X' & _ & _ & Hdot & Heq).
      injection Heq as _ <-.
      split; [now apply trim_forallb|apply trim_trim].
Qed.




End AnswerFacts.

(* ===================================================================== *)
(** * Further properties: the HTTP handler *)
(* ===================================================================== *)

Section ServerFacts.
Context {E : Env}.
Variable String_err : jsstring.

Lemma JS_eqb_neq (a b : jsstring) : JS.eqb a b = false <-> a <> b.
Proof.
  split.
  - intros H Heq. apply JS_eqb_eq in Heq. congruence.
  - intros H. destruct (JS.eqb a b) eqn:Heq; [|reflexivity].
    apply JS_eqb_eq in Heq. contradiction.
Qed.

Lemma handler_post (fuel : nat) (req : Request) :
  method req = str "POST" ->
  serve_handler String_err fuel req =
    match read_query req with
    | Throw _ =>
        Some {| http_status := 400; headers := []; body := str "Invalid JSON body" |}
    | Normal (Some (JString (c :: q))) =>
        match snd (invoke fuel (initial_state (c :: q))) with
        | Finished result =>
            Some {| http_status := 200; headers := json_headers;
                    body := Json.stringify
                              (JObject [(str "answer", JString (responseData result))]) |}
        | Failed message =>
            Some {| http_status := 500; headers := json_headers;
                    body := Json.stringify
                              (JObject [(str "error",
                                         JString (errorMsg String_err message))]) |}
        | Running _ _ => None
        end
    | Normal _ =>
        Some {| http_status := 400; headers := [];
                body := str "Bad Request: Missing " ++ [dquote] ++ str "query" ++ [dquote]
                        ++ str " string." |}
    end.
Proof. intros H. unfold serve_handler. rewrite H. reflexivity. Qed.

(** The query of an object: its [query] unless that is missing or null, then
    its [question]. *)
Lemma read_query_object (m : jsstring) (fields : list (jsstring * JSON)) :
  read_query {| method := m; json := Normal (JObject fields) |} =
    Normal match Json.lookup (str "query") fields with
           | None | Some JNull => Json.lookup (str "question") fields
           | Some v => Some v
           end.
Proof.
  unfold read_query. simpl.
  destruct (Json.lookup (str "query") fields) as [[]|]; reflexivity.
Qed.

(** Requests answered without a run, whatever the fuel and the environment:
    GET gets the welcome and any method but GET and POST gets 405, the body
    unread; a POST whose body is no JSON or is [null] gets 400
    [Invalid JSON body]; a POST whose body is no object, or an object whose
    [query] is present and not null yet no text or the empty text (whatever
    its [question]), or whose [query] is missing or null and whose [question]
    is no text that is not empty, gets 400 [Bad Request]. *)
Theorem requests_answered_without_run (fuel : nat) (m : jsstring) (body_json : Completion JSON) :
  let req := {| method := m; json := body_json |} in
  let bad_request :=
    Some {| http_status := 400; headers := [];
            body := str "Bad Request: Missing " ++ [dquote] ++ str "query" ++ [dquote]
                    ++ str " string." |} in
  let not_a_query (v : option JSON) :=
    match v with Some (JString (_ :: _)) => False | _ => True end in
  (m = str "GET" ->
   serve_handler String_err fuel req
   = Some {| http_status := 200; headers := json_headers;
             body := Json.stringify welcome |})
  /\ (m <> str "GET" -> m <> str "POST" ->
      serve_handler String_err fuel req
      = Some {| http_status := 405; headers := []; body := str "Method Not Allowed" |})
  /\ (m = str "POST" ->
      ((exists message, body_json = Throw message) \/ body_json = Normal JNull) ->
      serve_handler String_err fuel req
      = Some {| http_status := 400; headers := []; body := str "Invalid JSON body" |})
  /\ (m = str "POST" ->
      forall data, body_json = Normal data ->
      match data with
      | JNull => False
      | JObject fields =>
          match Json.lookup (str "query") fields with
          | None | Some JNull => not_a_query (Json.lookup (str "question") fields)
          | v => not_a_query v
          end
      | _ => True
      end ->
      serve_handler String_err fuel req = bad_request).
Proof.
  intros req bad_request not_a_query. repeat split.
  - intros ->. reflexivity.
  - intros Hget Hpost. unfold serve_handler. simpl method.
    apply JS_eqb_neq in Hget, Hpost. now rewrite Hget, Hpost.
  - intros -> [[message ->]| ->]; reflexivity.
  - intros -> data -> Hdata. rewrite handler_post by reflexivity.
    destruct data as [|b|x|s|items|fields]; try reflexivity; [contradiction|].
    unfold req. rewrite read_query_object.
    destruct (Json.lookup (str "query") fields) as [v|].
    + destruct v as [|b|x|s|items|fs]; try reflexivity.
      * destruct (Json.lookup (str "question") fields) as [[| | |[|c q]| |]|];
          try reflexivity; contradiction.
      * destruct s as [|c q]; [reflexivity|contradiction].
    + destruct (Json.lookup (str "question") fields) as [[| | |[|c q]| |]|];
        try reflexivity; contradiction.
Qed.

(** [question] stands in for a [query] that is missing or null: such a
    request gets the response of the request whose [query] is that text. *)
Theorem question_alias (fuel : nat) (fields : list (jsstring * JSON)) (q : jsstring) :
  match Json.lookup (str "query") fields with
  | None | Some JNull => True
  | Some _ => False
  end ->
  Json.lookup (str "question") fields = Some (JString q) ->
  serve_handler String_err fuel
    {| method := str "POST"; json := Normal (JObject fields) |}
  = serve_handler String_err fuel
      {| method := str "POST"; json := Normal (JObject [(str "query", JString q)]) |}.
Proof.
  intros Hquery Hquestion.
  rewrite !handler_post by reflexivity. rewrite !read_query_object.
  destruct (Json.lookup (str "query") fields) as [[]|]; try contradiction;
    rewrite Hquestion; reflexivity.
Qed.



End ServerFacts.

(* ===================================================================== *)
(** * Concrete runs of the further properties *)
(* ===================================================================== *)

(** A cycle from a reachable state leads to a reachable configuration. *)
Lemma cycle_reachable {E : Env} (initial state state' : AgentState) :
  reachable initial (Some node_parse_input, state) ->
  cycle state = Normal state' ->
  reachable initial (next_node node_response_generator state', state').
Proof.
  intros Hr Hc. apply cycle_inv in Hc as (s1 & s2 & H1 & H2 & H3).
  pose proof (reach_step Hr (step_node node_parse_input state H1)) as Hr1.
  pose proof (reach_step Hr1 (step_node node_tool_executor s1 H2)) as Hr2.
  exact (reach_step Hr2 (step_node node_response_generator s2 H3)).
Qed.

Lemma dispatch_ignores_surrounding_space_witness :
  forallb is_space (str " ") = true
  /\ forallb is_space [160%N; 10%N] = true
  /\ find_tool (E := env_weather) (the_tools (E := env_weather)) (str " " ++ str "CALCULATOR" ++ [160%N; 10%N])
     = find_tool (E := env_weather) (the_tools (E := env_weather)) (str "CALCULATOR")
  /\ find_tool (E := env_weather) (the_tools (E := env_weather)) (str "CALCULATOR") <> None
  /\ observe (E := env_weather) (the_tools (E := env_weather)) (str " " ++ str "CALCULATOR" ++ [160%N; 10%N])
       (str " " ++ str "2+2" ++ [160%N; 10%N])
     = observe (E := env_weather) (the_tools (E := env_weather)) (str "CALCULATOR") (str "2+2")
  /\ observe (E := env_weather) (the_tools (E := env_weather)) (str "CALCULATOR") (str "2+2") = str "4".
Proof.
  assert (H1 : forallb is_space (str " ") = true) by reflexivity.
  assert (H2 : forallb is_space [160%N; 10%N] = true) by reflexivity.
  assert (Hsome : find_tool (E := env_weather) (the_tools (E := env_weather)) (str "CALCULATOR") <> None)
    by discriminate.
  destruct (dispatch_ignores_surrounding_space (E := env_weather) (the_tools (E := env_weather))
              (str "CALCULATOR") (str "2+2") (str " ") [160%N; 10%N] (str " ")
              [160%N; 10%N] H1 H2 H1 H2) as (Hfind & _ & Hobs).
  split; [exact H1|]. split; [exact H2|]. split; [exact Hfind|].
  split; [exact Hsome|]. split; [exact (Hobs Hsome)|].
  vm_compute. reflexivity.
Defined.

Lemma blank_argument_is_invalid_witness :
  find_tool (E := env_weather) (the_tools (E := env_weather)) (str "calculator")
  = Some (Calculator (E := env_weather))
  /\ forallb is_space (str "  ") = true
  /\ observe (E := env_weather) (the_tools (E := env_weather)) (str "calculator") (str "  ")
     = str "Invalid expression".
Proof.
  assert (Hfind : find_tool (E := env_weather) (the_tools (E := env_weather)) (str "calculator")
                  = Some (Calculator (E := env_weather))) by reflexivity.
  assert (Hblank : forallb is_space (str "  ") = true) by reflexivity.
  split; [exact Hfind|]. split; [exact Hblank|].
  exact (blank_argument_is_invalid (E := env_weather) (the_tools (E := env_weather)) (str "calculator")
           (str "  ") Hfind Hblank).
Defined.

Lemma calculator_evaluates_iff_valid_witness :
  (str "(1+2)*3" <> [] /\ forallb calculator_class (str "(1+2)*3") = true)
  /\ snd (Calculator_run (E := env_weather) (str "(1+2)*3"))
     = [str "return (" ++ str "(1+2)*3" ++ str ")"]
  /\ Calculator_run (E := env_weather) [] = (str "Invalid expression", []).
Proof.
  assert (Hvalid : str "(1+2)*3" <> [] /\ forallb calculator_class (str "(1+2)*3") = true)
    by (split; [discriminate|reflexivity]).
  split; [exact Hvalid|]. split.
  - exact (proj1 (proj1 (calculator_evaluates_iff_valid (E := env_weather) (str "(1+2)*3")))
                 Hvalid).
  - exact (proj1 (proj2 (calculator_evaluates_iff_valid (E := env_weather) []))
                 (or_introl eq_refl)).
Defined.

Lemma parsed_action_shape_witness :
  String_match (str "Action: Calculator[(1+2)*[3]]") actionRe
  = Some [str "Action: Calculator[(1+2)*[3]"; str "Calculator"; str "(1+2)*[3"]
  /\ forallb not_rbracket (str "(1+2)*[3") = true
  /\ forallb not_lbracket (str "Calculator") = true.
Proof.
  assert (H : String_match (str "Action: Calculator[(1+2)*[3]]") actionRe
              = Some [str "Action: Calculator[(1+2)*[3]"; str "Calculator"; str "(1+2)*[3"])
    by reflexivity.
  destruct (parsed_action_shape _ H) as (_ & Hname & _ & Harg & _).
  split; [exact H|]. split; [exact Harg|exact Hname].
Defined.

Lemma run_keeps_tools_and_seed_witness :
  let state := initial_state (E := env_weather) (str "Weather in NYC?") in
  let state' := match cycle (E := env_weather) state with
                | Normal s => s
                | Throw _ => state
                end in
  cycle (E := env_weather) state = Normal state'
  /\ reachable (E := env_weather) state (Some node_parse_input, state')
  /\ tools state' = tools state
  /\ exists rest, messages state' = messages state ++ rest /\ Forall appended_by_run rest.
Proof.
  intros state state'.
  assert (Hc : cycle (E := env_weather) state = Normal state') by reflexivity.
  assert (Hr : reachable (E := env_weather) state (Some node_parse_input, state')).
  { exact (cycle_reachable (E := env_weather) (reach_start state) Hc). }
  split; [exact Hc|]. split; [exact Hr|].
  exact (run_keeps_tools_and_seed (E := env_weather) Hr).
Defined.



Lemma final_answer_is_trimmed_line_witness :
  let state := initial_state (E := env_answer) (str "What is 2+2?") in
  let state' := match cycle (E := env_answer) state with
                | Normal s => s
                | Throw _ => state
                end in
  final_answer state = None
  /\ reachable (E := env_answer) state (None, state')
  /\ final_answer state' = Some (str "4")
  /\ forallb dot (str "4") = true /\ trim (str "4") = str "4".
Proof.
  intros state state'.
  assert (Hnone : final_answer state = None) by reflexivity.
  assert (Hc : cycle (E := env_answer) state = Normal state') by reflexivity.
  assert (Hr : reachable (E := env_answer) state (None, state')).
  { exact (cycle_reachable (E := env_answer) (reach_start state) Hc). }
  assert (Ha : final_answer (snd (@None Node, state')) = Some (str "4")) by reflexivity.
  split; [exact Hnone|]. split; [exact Hr|]. split; [exact Ha|].
  exact (final_answer_is_trimmed_line (E := env_answer) Hnone Hr Ha).
Defined.



Lemma requests_answered_without_run_witness :
  serve_handler (E := env_weather) (str "Error") 0
    {| method := str "DELETE"; json := Throw (str "no body") |}
  = Some {| http_status := 405; headers := []; body := str "Method Not Allowed" |}
  /\ serve_handler (E := env_weather) (str "Error") 0 (post JNull)
     = Some {| http_status := 400; headers := []; body := str "Invalid JSON body" |}
  /\ serve_handler (E := env_weather) (str "Error") 0
       (post (JObject [(str "query", JString []); (str "question", JString (str "hi"))]))
     = Some {| http_status := 400; headers := [];
               body := str "Bad Request: Missing " ++ [dquote] ++ str "query" ++ [dquote]
                       ++ str " string." |}
  /\ serve_handler (E := env_weather) (str "Error") 0 (post (JObject []))
     = Some {| http_status := 400; headers := [];
               body := str "Bad Request: Missing " ++ [dquote] ++ str "query" ++ [dquote]
                       ++ str " string." |}.
Proof.
  split; [|split; [|split]].
  - refine (proj1 (proj2 (requests_answered_without_run (E := env_weather) (str "Error") 0
                            (str "DELETE") (Throw (str "no body")))) _ _); discriminate.
  - exact (proj1 (proj2 (proj2 (requests_answered_without_run (E := env_weather)
                                  (str "Error") 0 (str "POST") (Normal JNull))))
                 eq_refl (or_intror eq_refl)).
  - exact (proj2 (proj2 (proj2 (requests_answered_without_run (E := env_weather)
                                  (str "Error") 0 (str "POST")
                                  (Normal (JObject [(str "query", JString []);
                                                    (str "question", JString (str "hi"))])))))
                 eq_refl _ eq_refl I).
  - exact (proj2 (proj2 (proj2 (requests_answered_without_run (E := env_weather)
                                  (str "Error") 0 (str "POST") (Normal (JObject [])))))
                 eq_refl _ eq_refl I).
Defined.

Lemma question_alias_witness :
  let fields := [(str "query", JNull); (str "question", JString (str "What is 2+2?"))] in
  Json.lookup (str "query") fields = Some JNull
  /\ Json.lookup (str "question") fields = Some (JString (str "What is 2+2?"))
  /\ serve_handler (E := env_scenario_A) (str "Error") 30 (post (JObject fields))
     = serve_handler (E := env_scenario_A) (str "Error") 30
         (post (query_body (str "What is 2+2?")))
  /\ option_map http_status
       (serve_handler (E := env_scenario_A) (str "Error") 30 (post (JObject fields)))
     = Some 200%N.
Proof.
  intros fields.
  assert (Hq : Json.lookup (str "question") fields = Some (JString (str "What is 2+2?")))
    by reflexivity.
  split; [reflexivity|]. split; [exact Hq|]. split.
  - exact (question_alias (E := env_scenario_A) (str "Error") 30 fields I Hq).
  - vm_compute. reflexivity.
Defined.


